(** * ScholarGen: the versioned paper store and the paper renderer's parsers

    A shallow embedding of
    - [services/storage.ts]: [getPapers], [saveNewPaper], [savePaperVersion],
      [deletePaper] over the single [localStorage] record of the application;
    - [components/PaperRenderer.tsx]: the [sections] segmenter, [renderTable]
      and [parseFormatting].

    JavaScript strings are sequences of UTF-16 code units, and the regular
    expressions of the renderer carry no [u] flag, so they work on code units
    too: a string is modelled as a list of code units. *)

From Stdlib Require Import String Ascii.
From Stdlib Require Import List ZArith NArith Lia Bool.
From Stdlib Require Import Sorting.Sorted.
From Equations Require Import Equations.
From Equations.Prop Require Import Logic.
Import ListNotations.

(** ** JavaScript strings *)

Definition char16 := N.
Definition jsstring := list char16.

(** An ASCII literal as a JavaScript string. *)
Definition u16 (s : string) : jsstring :=
  map N_of_ascii (list_ascii_of_string s).

(** [a === b] on strings. *)
Fixpoint str_eqb (a b : jsstring) : bool :=
  match a, b with
  | [], [] => true
  | x :: a', y :: b' => N.eqb x y && str_eqb a' b'
  | _, _ => false
  end.

(** ** The data model of [types.ts] *)

Module PaperVersion.
Record t := mk {
    id : jsstring;
    versionNumber : Z;
    content : jsstring;
    createdAt : Z
  }.
End PaperVersion.

Module Paper.
Record t := mk {
    id : jsstring;
    topic : jsstring;
    overview : jsstring;
    createdAt : Z;
    updatedAt : Z;
    versions : list PaperVersion.t
  }.
End Paper.

(** ** The persistent record

    The whole collection lives under the one key [STORAGE_KEY] of
    [localStorage].  The value found there is either missing, or a string that
    [getPapers] cannot use (the empty string, which is falsy, or a string on
    which [JSON.parse] throws), or the [JSON.stringify] image of a [Paper[]],
    which [JSON.parse] reads back as the same array of fresh objects.
    [localStorage.setItem] is taken to succeed. *)

Inductive LocalStorage :=
| NoItem
| Unparsable (data : jsstring)
| Stored (papers : list Paper.t).

Definition getPapers (ls : LocalStorage) : list Paper.t :=
  match ls with
  | NoItem => []
  | Unparsable _ => []
  | Stored papers => papers
  end.

(** [localStorage.setItem(STORAGE_KEY, JSON.stringify(papers))] *)
Definition setItem (papers : list Paper.t) : LocalStorage := Stored papers.

(** [Array.prototype.findIndex]; [None] stands for [-1]. *)
Fixpoint findIndex {A} (f : A -> bool) (l : list A) : option nat :=
  match l with
  | [] => None
  | x :: l' => if f x then Some 0%nat else option_map S (findIndex f l')
  end.

(** [arr.splice(index, 1)]: the array without the element at [index]. *)
Definition splice1 {A} (l : list A) (index : nat) : list A :=
  firstn index l ++ skipn (S index) l.

(** The two reads of the environment, [generateId()] and [Date.now()], are
    passed in as the values they return during the call, in call order. *)

Definition saveNewPaper (ls : LocalStorage) (topic overview content : jsstring)
    (paperId versionId : jsstring) (timestamp : Z) : LocalStorage * Paper.t :=
  let papers := getPapers ls in
  let newPaper :=
    Paper.mk paperId topic overview timestamp timestamp
      [PaperVersion.mk versionId 1 content timestamp] in
  (setItem (newPaper :: papers), newPaper).

Definition savePaperVersion (ls : LocalStorage) (paperId content : jsstring)
    (versionId : jsstring) (timestamp : Z) : LocalStorage * option Paper.t :=
  let papers := getPapers ls in
  match findIndex (fun p => str_eqb (Paper.id p) paperId) papers with
  | None => (ls, None)
  | Some index =>
    match nth_error papers index with
    | None => (ls, None) (* not reached: [index] comes from [findIndex] *)
    | Some paper =>
      let nextVersionNum := (Z.of_nat (length (Paper.versions paper)) + 1)%Z in
      let newVersion :=
        PaperVersion.mk versionId nextVersionNum content timestamp in
      let paper' :=
        Paper.mk (Paper.id paper) (Paper.topic paper) (Paper.overview paper)
          (Paper.createdAt paper) timestamp
          (Paper.versions paper ++ [newVersion]) in
      (setItem (paper' :: splice1 papers index), Some paper')
    end
  end.

Definition getPaperById (ls : LocalStorage) (id : jsstring) : option Paper.t :=
  find (fun p => str_eqb (Paper.id p) id) (getPapers ls).

Definition deletePaper (ls : LocalStorage) (id : jsstring) : LocalStorage :=
  setItem (filter (fun p => negb (str_eqb (Paper.id p) id)) (getPapers ls)).

(** ** Runs of store operations *)

Inductive Op :=
| Create (topic overview content paperId versionId : jsstring) (timestamp : Z)
| AppendVersion (paperId content versionId : jsstring) (timestamp : Z)
| Delete (id : jsstring).

Definition step (ls : LocalStorage) (o : Op) : LocalStorage :=
  match o with
  | Create topic overview content paperId versionId timestamp =>
      fst (saveNewPaper ls topic overview content paperId versionId timestamp)
  | AppendVersion paperId content versionId timestamp =>
      fst (savePaperVersion ls paperId content versionId timestamp)
  | Delete id => deletePaper ls id
  end.

Definition run (ls : LocalStorage) (ops : list Op) : LocalStorage :=
  fold_left step ops ls.

(** The clock readings handed to a run, in order. *)
Fixpoint timestamps (ops : list Op) : list Z :=
  match ops with
  | [] => []
  | Create _ _ _ _ _ t :: ops' => t :: timestamps ops'
  | AppendVersion _ _ _ t :: ops' => t :: timestamps ops'
  | Delete _ :: ops' => timestamps ops'
  end.

(** Successive [savePaperVersion] calls on one paper, each given as
    (content, generated version id, clock reading); the results are kept in
    call order. *)
Fixpoint appendAll (ls : LocalStorage) (paperId : jsstring)
    (calls : list (jsstring * jsstring * Z)) : LocalStorage * list (option Paper.t) :=
  match calls with
  | [] => (ls, [])
  | (content, versionId, timestamp) :: calls' =>
      let (ls', r) := savePaperVersion ls paperId content versionId timestamp in
      let (ls'', rs) := appendAll ls' paperId calls' in
      (ls'', r :: rs)
  end.

(** Recency order of [list()]: every paper is at least as recent as all the
    papers behind it. *)
Definition recencyOrdered (papers : list Paper.t) : Prop :=
  StronglySorted (fun a b => (Paper.updatedAt b <= Paper.updatedAt a)%Z) papers.

(** Version numbers 1, 2, ..., n in list order. *)
Definition versionNumbers (p : Paper.t) : list Z :=
  map PaperVersion.versionNumber (Paper.versions p).

Definition countingFrom1 (n : nat) : list Z :=
  map Z.of_nat (seq 1 n).

(** ** String primitives used by the renderer *)

(** ECMAScript [LineTerminator]: LF, CR, LS, PS. *)
Definition isLineTerminator (c : char16) : bool :=
  (N.eqb c 10 || N.eqb c 13 || N.eqb c 8232 || N.eqb c 8233)%N.

(** What [String.prototype.trim] strips: [WhiteSpace] (TAB, VT, FF, SP, NBSP,
    ZWNBSP and the space separators) and [LineTerminator]. *)
Definition isWhiteSpace (c : char16) : bool :=
  (N.eqb c 9 || N.eqb c 11 || N.eqb c 12 || N.eqb c 32 || N.eqb c 160
   || N.eqb c 5760 || (N.leb 8192 c && N.leb c 8202) || N.eqb c 8239
   || N.eqb c 8287 || N.eqb c 12288 || N.eqb c 65279
   || isLineTerminator c)%N.

Fixpoint trimStart (s : jsstring) : jsstring :=
  match s with
  | [] => []
  | c :: s' => if isWhiteSpace c then trimStart s' else s
  end.

Definition trimEnd (s : jsstring) : jsstring := rev (trimStart (rev s)).

Definition trim (s : jsstring) : jsstring := trimEnd (trimStart s).

(** [s.split(sep)] for a separator of one code unit. *)
Fixpoint splitOn (sep : char16) (s : jsstring) : list jsstring :=
  match s with
  | [] => [[]]
  | c :: s' =>
    if N.eqb c sep then [] :: splitOn sep s'
    else match splitOn sep s' with
         | [] => [[c]]
         | piece :: pieces => (c :: piece) :: pieces
         end
  end.

Fixpoint startsWith (s prefix : jsstring) : bool :=
  match prefix, s with
  | [], _ => true
  | x :: prefix', y :: s' => N.eqb x y && startsWith s' prefix'
  | _ :: _, [] => false
  end.

Definition endsWith (s suffix : jsstring) : bool :=
  startsWith (rev s) (rev suffix).

(** [s.substring(a, b)]: both ends clamped to the length, swapped when
    [a > b]. *)
Definition substring (s : jsstring) (a b : nat) : jsstring :=
  let a' := Nat.min a (length s) in
  let b' := Nat.min b (length s) in
  firstn (Nat.max a' b' - Nat.min a' b') (skipn (Nat.min a' b') s).

(** [s.slice(a, b)]: a negative end counts from the end of the string; an
    empty string when the ends cross. *)
Definition slice (s : jsstring) (a b : Z) : jsstring :=
  let len := Z.of_nat (length s) in
  let from := if (a <? 0)%Z then Z.max (len + a) 0 else Z.min a len in
  let to := if (b <? 0)%Z then Z.max (len + b) 0 else Z.min b len in
  firstn (Z.to_nat (Z.max (to - from) 0)) (skipn (Z.to_nat from) s).

(** A lazy star [X*?] followed by the literal that ends the pattern: the
    backtracking matcher tries zero code units first and takes one more each
    time the literal does not follow.  [allowed] is the class [X]; the result
    is the number of code units the star takes. *)
Fixpoint lazyStarThen (allowed : char16 -> bool) (lit s : jsstring) : option nat :=
  if startsWith s lit then Some 0%nat
  else match s with
       | [] => None
       | c :: s' =>
         if allowed c then option_map S (lazyStarThen allowed lit s') else None
       end.

(** ** [PaperRenderer]: the [sections] segmenter *)

Inductive SectionType := text | mermaid | table.

Module PaperSection.
Record t := mk { type : SectionType; content : jsstring }.
End PaperSection.

Definition fenceOpen : jsstring := u16 "```mermaid".
Definition fenceClose : jsstring := u16 "```".

(** The pattern [```mermaid([\s\S]*?)```] tried at the head of [s]: capture
    group 1 and the length of the match. *)
Definition mermaidMatch (s : jsstring) : option (jsstring * nat) :=
  if startsWith s fenceOpen then
    let body := skipn (length fenceOpen) s in
    match lazyStarThen (fun _ => true) fenceClose body with
    | Some k => Some (firstn k body, (length fenceOpen + k + length fenceClose)%nat)
    | None => None
    end
  else None.

(** The leftmost match in [s], which starts at index [i] of the content:
    [match.index], [match[1]] and the new [lastIndex]. *)
Fixpoint searchFrom (s : jsstring) (i : nat) : option (nat * jsstring * nat) :=
  match mermaidMatch s with
  | Some (capture, n) => Some (i, capture, (i + n)%nat)
  | None =>
    match s with
    | [] => None
    | _ :: s' => searchFrom s' (S i)
    end
  end.

(** [mermaidRegex.exec(content)] of the global regex, from its [lastIndex]. *)
Definition mermaidRegex_exec (content : jsstring) (lastIndex : nat)
    : option (nat * jsstring * nat) :=
  if (length content <? lastIndex)%nat then None
  else searchFrom (skipn lastIndex content) lastIndex.

(** The [while] loop of [sections] and the code after it. *)
Equations? sectionsLoop (content : jsstring) (lastIndex : nat)
    (result : list PaperSection.t) : list PaperSection.t
    by wf (length content - lastIndex)%nat lt :=
  sectionsLoop content lastIndex result
    with inspect (mermaidRegex_exec content lastIndex) := {
    | exist _ (Some (index, capture, lastIndex')) Hexec =>
        sectionsLoop content lastIndex'
          ((if (lastIndex <? index)%nat
            then result ++ [PaperSection.mk text (substring content lastIndex index)]
            else result)
           ++ [PaperSection.mk mermaid (trim capture)])
    | exist _ None _ =>
        if (lastIndex <? length content)%nat
        then result ++ [PaperSection.mk text
                          (substring content lastIndex (length content))]
        else result }.
Proof.
  unfold mermaidRegex_exec in Hexec.
  destruct (Nat.ltb_spec (length content) lastIndex) as [|Hle]; [discriminate|].
  assert (Hgen : forall s i r, searchFrom s i = Some r ->
            s <> [] /\ (i < snd r)%nat).
  { induction s as [|c s IH]; intros i r Hs; simpl in Hs.
    - discriminate.
    - split; [discriminate|].
      destruct (mermaidMatch (c :: s)) as [[cap n]|] eqn:Hm.
      + inversion Hs; subst; simpl.
        unfold mermaidMatch in Hm.
        destruct (startsWith (c :: s) fenceOpen); [|discriminate].
        destruct (lazyStarThen _ _ _); [|discriminate].
        inversion Hm; subst. simpl. lia.
      + apply IH in Hs. lia. }
  apply Hgen in Hexec. destruct Hexec as [Hne Hlt]. simpl in Hlt.
  assert (lastIndex < length content)%nat.
  { destruct (Nat.eq_dec lastIndex (length content)) as [->|]; [|lia].
    rewrite skipn_all in Hne. congruence. }
  lia.
Qed.

Definition sections (content : jsstring) : list PaperSection.t :=
  sectionsLoop content 0 [].

(** ** [PaperRenderer]: [renderTable] *)

Record Table := {
  headers : list jsstring;
  bodyRows : list (list jsstring)
}.

(** [row.split('|').filter(c => c.trim() !== '').map(c => c.trim())] *)
Definition rowCells (row : jsstring) : list jsstring :=
  map trim
    (filter (fun c => negb (str_eqb (trim c) [])) (splitOn 124%N row)).

(** The header and body cells that [renderTable] lays out.  On an empty
    [rows], [rows[0]] is [undefined] and [headerRow.split] throws a
    [TypeError]: [None]. *)
Definition renderTable (rows : list jsstring) : option Table :=
  match rows with
  | [] => None
  | headerRow :: _ =>
      Some {| headers := rowCells headerRow;
              bodyRows := map rowCells (skipn 2 rows) |}
  end.

(** ** [PaperRenderer]: [parseFormatting] *)

Definition star : char16 := 42%N.

(** The pattern [( \*\*.*?\*\* | \*.*?\* )] tried at the head of [s]: the length
    of the match, which is also capture group 1.  The second alternative is
    tried only when the first fails for every length of its lazy star; the
    dot takes any code unit but a line terminator. *)
Definition emphasisMatch (s : jsstring) : option nat :=
  let dot c := negb (isLineTerminator c) in
  let bold :=
    if startsWith s [star; star]
    then option_map (fun k => (2 + k + 2)%nat)
           (lazyStarThen dot [star; star] (skipn 2 s))
    else None in
  match bold with
  | Some n => Some n
  | None =>
    if startsWith s [star]
    then option_map (fun k => (1 + k + 1)%nat)
           (lazyStarThen dot [star] (skipn 1 s))
    else None
  end.

(** The loop of [RegExp.prototype[Symbol.split]]: [p] is the start of the
    piece being collected, [q] the position where the sticky match is tried,
    [A] the array built so far.  A match puts the piece before it and its
    capture group into [A]. *)
Equations? splitLoop (str : jsstring) (p q : nat) (A : list jsstring)
    : list jsstring by wf (length str - q)%nat lt :=
  splitLoop str p q A with inspect (q <? length str)%nat := {
    | exist _ false _ => A ++ [substring str p (length str)]
    | exist _ true Hq with inspect (emphasisMatch (skipn q str)) := {
      | exist _ None _ => splitLoop str p (q + 1) A
      | exist _ (Some n) Hm
          with inspect (Nat.min (q + n) (length str) =? p)%nat := {
        | exist _ true _ => splitLoop str p (q + 1) A
        | exist _ false _ =>
            splitLoop str (Nat.min (q + n) (length str))
              (Nat.min (q + n) (length str))
              (A ++ [substring str p q;
                     substring str q (Nat.min (q + n) (length str))]) } } }.
Proof.
  all: apply Nat.ltb_lt in Hq; try lia.
  assert (0 < n)%nat; [|lia].
  unfold emphasisMatch in Hm.
  destruct (startsWith _ [star; star]);
    [destruct (lazyStarThen _ [star; star] _); simpl in Hm;
       [inversion Hm; lia|]|];
    (destruct (startsWith _ [star]); [|discriminate];
     destruct (lazyStarThen _ [star] _); simpl in Hm;
       [inversion Hm; lia|discriminate]).
Qed.

(** [text.split] on the global regex [( \*\*.*?\*\* | \*.*?\* )].  On the
    empty string the algorithm tries the pattern once, and returns no piece
    when it matches and the one empty piece when it does not. *)
Definition splitEmphasis (text : jsstring) : list jsstring :=
  match text with
  | [] => match emphasisMatch [] with Some _ => [] | None => [[]] end
  | _ :: _ => splitLoop text 0 0 []
  end.

(** The nodes [parseFormatting] returns: [<strong>] is a bold run, [<em>] an
    italic run, a bare string a plain run. *)
Inductive ReactNode :=
| strong (children : jsstring)
| em (children : jsstring)
| plain (s : jsstring).

Definition formatPart (part : jsstring) : ReactNode :=
  if startsWith part [star; star] && endsWith part [star; star]
  then strong (slice part 2 (-2))
  else if startsWith part [star] && endsWith part [star]
  then em (slice part 1 (-1))
  else plain part.

Definition parseFormatting (text : jsstring) : list ReactNode :=
  map formatPart (splitEmphasis text).

(** ** Predicates and sample data for the statements *)

(** A paper holds at least one version. *)
Definition hasVersion (p : Paper.t) : Prop := (1 <= length (Paper.versions p))%nat.

(** The versions of a paper are numbered 1, 2, ... up to their count. *)
Definition wellNumbered (p : Paper.t) : Prop :=
  versionNumbers p = countingFrom1 (length (Paper.versions p)).

(** A store of three papers in recency order, and a run of operations on it. *)
Definition demoPaper (id : string) (updatedAt : Z) (numbers : list Z) : Paper.t :=
  Paper.mk (u16 id) (u16 "topic") (u16 "overview") 5 updatedAt
    (map (fun n => PaperVersion.mk (u16 "v") n (u16 "body") 5) numbers).

Definition demoStore : LocalStorage :=
  Stored [demoPaper "a" 30 [1%Z]; demoPaper "b" 20 [1%Z; 2%Z]; demoPaper "c" 10 [1%Z]].

Definition demoOps : list Op :=
  [AppendVersion (u16 "c") (u16 "edited") (u16 "v2") 40;
   Create (u16 "t") (u16 "o") (u16 "body") (u16 "d") (u16 "v1") 40;
   Delete (u16 "a");
   AppendVersion (u16 "b") (u16 "again") (u16 "v3") 50].

Definition demoCalls : list (jsstring * jsstring * Z) :=
  [(u16 "second draft", u16 "v2", 41%Z); (u16 "third draft", u16 "v3", 42%Z)].

(** The content holds a fence: an opening [```mermaid] with a closing [```]
    somewhere behind it. *)
Definition hasFence (content : jsstring) : Prop :=
  exists before body after,
    content = before ++ fenceOpen ++ body ++ fenceClose ++ after.

(** The cells of a row said in one pass: trim every fragment between pipes,
    then leave out each fragment that is empty, wherever it stands. *)
Definition nonBlankCells (row : jsstring) : list jsstring :=
  filter (fun c => negb (str_eqb c [])) (map trim (splitOn 124%N row)).

(** The cell rule in the words of the specification, to compare with
    [rowCells]: only a blank first fragment and a blank last fragment, the
    ones a leading and a trailing pipe produce, are dropped; every remaining
    fragment is trimmed. *)
Definition dropBlankHead (fragments : list jsstring) : list jsstring :=
  match fragments with
  | [] => []
  | c :: rest => if str_eqb (trim c) [] then rest else fragments
  end.

Definition cellsDroppingEndsOnly (row : jsstring) : list jsstring :=
  map trim (rev (dropBlankHead (rev (dropBlankHead (splitOn 124%N row))))).

(** The number of asterisks in a string. *)
Definition countStars (s : jsstring) : nat := count_occ N.eq_dec s star.

(** ** [PaperRenderer]: [renderTextContent] and the component's output *)

Definition isDigit (c : char16) : bool := (N.leb 48 c && N.leb c 57)%N.

Fixpoint dropDigits (s : jsstring) : jsstring :=
  match s with
  | [] => []
  | c :: s' => if isDigit c then dropDigits s' else s
  end.

(** The test of the pattern [^\d+\.]: the greedy digits are followed by a
    period; giving digits back cannot help, a digit is no period. *)
Definition orderedMarker (s : jsstring) : bool :=
  match s with
  | [] => false
  | c :: s' => isDigit c && startsWith (dropDigits s') [46%N]
  end.

(** [s.replace] of the pattern [^\d+\.\s*] by the empty string: the marker
    and all the white space behind it go; a string without the marker is
    returned as it is. *)
Definition stripOrderedMarker (s : jsstring) : jsstring :=
  if orderedMarker s then trimStart (skipn 1 (dropDigits s)) else s.

(** The elements [renderTextContent] pushes.  [key] is the line index [idx];
    a table is keyed [table-idx] when a later line flushes it ([Some idx]) and
    [table-end] when the text ends inside it ([None]). *)
Module Element.
Inductive t :=
| h3 (key : nat) (children : list ReactNode)
| h2 (key : nat) (children : list ReactNode)
| h1 (key : nat) (children : list ReactNode)
| li_disc (key : nat) (children : list ReactNode)
| li_decimal (key : nat) (children : list ReactNode)
| p (key : nat) (children : list ReactNode)
| table (key : option nat) (cells : Table).
End Element.

(** The chain of [if]s on the trimmed line; nothing for an empty one. *)
Definition lineElement (idx : nat) (trimmed : jsstring) : list Element.t :=
  match trimmed with
  | [] => []
  | _ :: _ =>
    if startsWith trimmed (u16 "### ")
    then [Element.h3 idx (parseFormatting (substring trimmed 4 (length trimmed)))]
    else if startsWith trimmed (u16 "## ")
    then [Element.h2 idx (parseFormatting (substring trimmed 3 (length trimmed)))]
    else if startsWith trimmed (u16 "# ")
    then [Element.h1 idx (parseFormatting (substring trimmed 2 (length trimmed)))]
    else if startsWith trimmed (u16 "- ") || startsWith trimmed (u16 "* ")
    then [Element.li_disc idx (parseFormatting (substring trimmed 2 (length trimmed)))]
    else if orderedMarker trimmed
    then [Element.li_decimal idx (parseFormatting (stripOrderedMarker trimmed))]
    else [Element.p idx (parseFormatting trimmed)]
  end.

(** The variables the [forEach] callback updates. *)
Record RenderState := {
  elements : list Element.t;
  tableBuffer : list jsstring;
  inTable : bool
}.

(** One call of the [forEach] callback; [None] when [renderTable] throws. *)
Definition renderLine (st : RenderState) (idx : nat) (line : jsstring)
    : option RenderState :=
  if startsWith (trim line) [124%N]
  then Some {| elements := elements st;
               tableBuffer := tableBuffer st ++ [line];
               inTable := true |}
  else if inTable st
  then match renderTable (tableBuffer st) with
       | None => None
       | Some cells =>
           Some {| elements := (elements st ++ [Element.table (Some idx) cells])
                               ++ lineElement idx (trim line);
                   tableBuffer := [];
                   inTable := false |}
       end
  else Some {| elements := elements st ++ lineElement idx (trim line);
               tableBuffer := tableBuffer st;
               inTable := false |}.

Fixpoint forEachLine (lines : list jsstring) (idx : nat) (st : RenderState)
    : option RenderState :=
  match lines with
  | [] => Some st
  | line :: lines' =>
    match renderLine st idx line with
    | None => None
    | Some st' => forEachLine lines' (S idx) st'
    end
  end.

Definition renderTextContent (text : jsstring) : option (list Element.t) :=
  match forEachLine (splitOn 10%N text) 0
          {| elements := []; tableBuffer := []; inTable := false |} with
  | None => None
  | Some st =>
    if inTable st && (0 <? length (tableBuffer st))%nat
    then match renderTable (tableBuffer st) with
         | None => None
         | Some cells => Some (elements st ++ [Element.table None cells])
         end
    else Some (elements st)
  end.

(** What the component returns for each section: a [MermaidDiagram] with the
    chart, or a [div] with the elements of the text. *)
Inductive SectionView :=
| MermaidDiagram (chart : jsstring)
| textDiv (children : list Element.t).

Fixpoint viewSections (l : list PaperSection.t) : option (list SectionView) :=
  match l with
  | [] => Some []
  | section :: l' =>
    match PaperSection.type section with
    | mermaid =>
        option_map (cons (MermaidDiagram (PaperSection.content section)))
          (viewSections l')
    | _ =>
        match renderTextContent (PaperSection.content section) with
        | None => None
        | Some children => option_map (cons (textDiv children)) (viewSections l')
        end
    end
  end.

Definition PaperRenderer (content : jsstring) : option (list SectionView) :=
  viewSections (sections content).

(** ** [App]: the handlers that drive the store

    The component state is the tuple of its [useState] cells; a handler reads
    the cells of the render it was created in and its [set...] calls give the
    cells of the next render.  The clock, the id generator, the answer of
    [confirm] and the outcome of [generateAcademicPaper] are inputs.
    [loadingStep], which only the timer effect writes, is left out. *)

Module App.

Inductive LoadingState := IDLE | GENERATING | COMPLETE | ERROR.
Inductive ViewState := HOME | HISTORY | EDITOR.

Record State := {
  view : ViewState;
  papers : list Paper.t;
  loadingState : LoadingState;
  topic : jsstring;
  overview : jsstring;
  errorMsg : jsstring;
  currentPaper : option Paper.t;
  currentVersion : option PaperVersion.t;
  isEditing : bool;
  editContent : jsstring
}.

Definition generationFailed : jsstring :=
  u16 "The system encountered an error while conducting the research. Please try again.".

(** How a handler ends: it returns, or it throws after the [set...] calls
    made so far. *)
Inductive Completion :=
| Done (st : State)
| Threw (st : State).

(** [loadPaper(paper, version)]; without a version the latest one is taken.
    When the paper has no version, [v] is [undefined] and reading [v.content]
    throws, after [setCurrentPaper] and [setCurrentVersion]. *)
Definition loadPaper (st : State) (paper : Paper.t)
    (version : option PaperVersion.t) : Completion :=
  let v := match version with
           | Some ver => Some ver
           | None => nth_error (Paper.versions paper)
                       (length (Paper.versions paper) - 1)
           end in
  match v with
  | None =>
      Threw {| view := view st; papers := papers st;
               loadingState := loadingState st;
               topic := topic st; overview := overview st;
               errorMsg := errorMsg st;
               currentPaper := Some paper; currentVersion := None;
               isEditing := isEditing st; editContent := editContent st |}
  | Some ver =>
      Done {| view := EDITOR; papers := papers st; loadingState := IDLE;
              topic := topic st; overview := overview st;
              errorMsg := errorMsg st;
              currentPaper := Some paper; currentVersion := Some ver;
              isEditing := false;
              editContent := PaperVersion.content ver |}
  end.

(** The [catch] of [handleGenerate]. *)
Definition generationError (st : State) : State :=
  {| view := view st; papers := papers st; loadingState := ERROR;
     topic := topic st; overview := overview st;
     errorMsg := generationFailed;
     currentPaper := currentPaper st; currentVersion := currentVersion st;
     isEditing := isEditing st; editContent := editContent st |}.

(** [handleGenerate], run to its end; [outcome] is the text the service
    resolves with, or [None] when it rejects. *)
Definition handleGenerate (st : State) (ls : LocalStorage)
    (outcome : option jsstring) (paperId versionId : jsstring) (timestamp : Z)
    : State * LocalStorage :=
  if str_eqb (trim (topic st)) [] || str_eqb (trim (overview st)) []
  then (st, ls)
  else
    let generating :=
      {| view := view st; papers := papers st; loadingState := GENERATING;
         topic := topic st; overview := overview st; errorMsg := [];
         currentPaper := currentPaper st; currentVersion := currentVersion st;
         isEditing := isEditing st; editContent := editContent st |} in
    match outcome with
    | None => (generationError generating, ls)
    | Some result =>
      let (ls', newPaper) :=
        saveNewPaper ls (topic st) (overview st) result paperId versionId timestamp in
      let listed :=
        {| view := view generating; papers := getPapers ls';
           loadingState := GENERATING;
           topic := topic st; overview := overview st; errorMsg := [];
           currentPaper := currentPaper st; currentVersion := currentVersion st;
           isEditing := isEditing st; editContent := editContent st |} in
      match loadPaper listed newPaper (nth_error (Paper.versions newPaper) 0) with
      | Done st' =>
          ({| view := view st'; papers := papers st'; loadingState := IDLE;
              topic := topic st'; overview := overview st';
              errorMsg := errorMsg st';
              currentPaper := currentPaper st';
              currentVersion := currentVersion st';
              isEditing := isEditing st'; editContent := editContent st' |}, ls')
      | Threw st' => (generationError st', ls')
      end
    end.

Definition handleSaveVersion (st : State) (ls : LocalStorage)
    (versionId : jsstring) (timestamp : Z) : State * LocalStorage :=
  match currentPaper st with
  | None => (st, ls)
  | Some paper =>
    let unchanged :=
      match currentVersion st with
      | Some v => str_eqb (editContent st) (PaperVersion.content v)
      | None => false
      end in
    if unchanged
    then ({| view := view st; papers := papers st;
             loadingState := loadingState st;
             topic := topic st; overview := overview st; errorMsg := errorMsg st;
             currentPaper := currentPaper st; currentVersion := currentVersion st;
             isEditing := false; editContent := editContent st |}, ls)
    else
      match savePaperVersion ls (Paper.id paper) (editContent st) versionId timestamp with
      | (ls', Some updatedPaper) =>
          ({| view := view st; papers := getPapers ls';
              loadingState := loadingState st;
              topic := topic st; overview := overview st; errorMsg := errorMsg st;
              currentPaper := Some updatedPaper;
              currentVersion :=
                nth_error (Paper.versions updatedPaper)
                  (length (Paper.versions updatedPaper) - 1);
              isEditing := false; editContent := editContent st |}, ls')
      | (ls', None) => (st, ls')
      end
  end.

Definition handleDeletePaper (st : State) (ls : LocalStorage)
    (id : jsstring) (confirmed : bool) : State * LocalStorage :=
  if confirmed
  then let ls' := deletePaper ls id in
       ({| view := view st; papers := getPapers ls';
           loadingState := loadingState st;
           topic := topic st; overview := overview st; errorMsg := errorMsg st;
           currentPaper := currentPaper st; currentVersion := currentVersion st;
           isEditing := isEditing st; editContent := editContent st |}, ls')
  else (st, ls).

(** The [onChange] of the version selector, which the editor shows only when
    a paper and a version are current. *)
Definition onVersionChange (st : State) (value : jsstring) : State :=
  match currentPaper st with
  | None => st
  | Some paper =>
    match find (fun ver => str_eqb (PaperVersion.id ver) value)
            (Paper.versions paper) with
    | None => st
    | Some v =>
        {| view := view st; papers := papers st;
           loadingState := loadingState st;
           topic := topic st; overview := overview st; errorMsg := errorMsg st;
           currentPaper := currentPaper st; currentVersion := Some v;
           isEditing := false; editContent := PaperVersion.content v |}
    end
  end.

(** What the user and the environment can make happen. *)
Inductive Event :=
| Mount
| SetTopic (value : jsstring)
| SetOverview (value : jsstring)
| Generate (outcome : option jsstring) (paperId versionId : jsstring) (timestamp : Z)
| OpenPaper (index : nat)
| ChangeVersion (value : jsstring)
| SetEditing (b : bool)
| Edit (value : jsstring)
| SaveVersion (versionId : jsstring) (timestamp : Z)
| DeletePaper (id : jsstring) (confirmed : bool)
| SetView (v : ViewState)
| DismissError.

(** The cells of the first render. *)
Definition initial : State :=
  {| view := HOME; papers := []; loadingState := IDLE;
     topic := []; overview := []; errorMsg := [];
     currentPaper := None; currentVersion := None;
     isEditing := false; editContent := [] |}.

(** One event on the component and the store; [None] when the handler
    throws out of the event. *)
Definition handle (s : State * LocalStorage) (ev : Event)
    : option (State * LocalStorage) :=
  let (st, ls) := s in
  match ev with
  | Mount =>
      Some ({| view := view st; papers := getPapers ls;
               loadingState := loadingState st;
               topic := topic st; overview := overview st;
               errorMsg := errorMsg st;
               currentPaper := currentPaper st;
               currentVersion := currentVersion st;
               isEditing := isEditing st; editContent := editContent st |}, ls)
  | SetTopic value =>
      Some ({| view := view st; papers := papers st;
               loadingState := loadingState st;
               topic := value; overview := overview st;
               errorMsg := errorMsg st;
               currentPaper := currentPaper st;
               currentVersion := currentVersion st;
               isEditing := isEditing st; editContent := editContent st |}, ls)
  | SetOverview value =>
      Some ({| view := view st; papers := papers st;
               loadingState := loadingState st;
               topic := topic st; overview := value;
               errorMsg := errorMsg st;
               currentPaper := currentPaper st;
               currentVersion := currentVersion st;
               isEditing := isEditing st; editContent := editContent st |}, ls)
  | Generate outcome paperId versionId timestamp =>
      Some (handleGenerate st ls outcome paperId versionId timestamp)
  | OpenPaper index =>
      match nth_error (papers st) index with
      | None => Some (st, ls)
      | Some paper =>
        match loadPaper st paper None with
        | Done st' => Some (st', ls)
        | Threw _ => None
        end
      end
  | ChangeVersion value => Some (onVersionChange st value, ls)
  | SetEditing b =>
      Some ({| view := view st; papers := papers st;
               loadingState := loadingState st;
               topic := topic st; overview := overview st;
               errorMsg := errorMsg st;
               currentPaper := currentPaper st;
               currentVersion := currentVersion st;
               isEditing := b; editContent := editContent st |}, ls)
  | Edit value =>
      Some ({| view := view st; papers := papers st;
               loadingState := loadingState st;
               topic := topic st; overview := overview st;
               errorMsg := errorMsg st;
               currentPaper := currentPaper st;
               currentVersion := currentVersion st;
               isEditing := isEditing st; editContent := value |}, ls)
  | SaveVersion versionId timestamp =>
      Some (handleSaveVersion st ls versionId timestamp)
  | DeletePaper id confirmed => Some (handleDeletePaper st ls id confirmed)
  | SetView v =>
      Some ({| view := v; papers := papers st;
               loadingState := loadingState st;
               topic := topic st; overview := overview st;
               errorMsg := errorMsg st;
               currentPaper := currentPaper st;
               currentVersion := currentVersion st;
               isEditing := isEditing st; editContent := editContent st |}, ls)
  | DismissError =>
      Some ({| view := view st; papers := papers st; loadingState := IDLE;
               topic := topic st; overview := overview st;
               errorMsg := errorMsg st;
               currentPaper := currentPaper st;
               currentVersion := currentVersion st;
               isEditing := isEditing st; editContent := editContent st |}, ls)
  end.

Fixpoint handleAll (s : State * LocalStorage) (events : list Event)
    : option (State * LocalStorage) :=
  match events with
  | [] => Some s
  | ev :: events' =>
    match handle s ev with
    | None => None
    | Some s' => handleAll s' events'
    end
  end.

End App.

(** ** More predicates on the store *)

(** The id an operation addresses. *)
Definition target (o : Op) : jsstring :=
  match o with
  | Create _ _ _ paperId _ _ => paperId
  | AppendVersion paperId _ _ _ => paperId
  | Delete id => id
  end.

(** The latest version of a paper, [versions[versions.length - 1]]. *)
Definition latestVersion (p : Paper.t) : option PaperVersion.t :=
  nth_error (Paper.versions p) (length (Paper.versions p) - 1).

(** The timestamps of a paper agree with those of its versions. *)
Definition stampsAgree (p : Paper.t) : Prop :=
  option_map PaperVersion.createdAt (hd_error (Paper.versions p)) =
    Some (Paper.createdAt p) /\
  option_map PaperVersion.createdAt (latestVersion p) = Some (Paper.updatedAt p).

Definition idsOf (ls : LocalStorage) : list jsstring :=
  map Paper.id (getPapers ls).

(** A create operation brings an id that the store does not hold yet. *)
Definition freshFor (ls : LocalStorage) (o : Op) : Prop :=
  match o with
  | Create _ _ _ paperId _ _ => ~ In paperId (idsOf ls)
  | _ => True
  end.

(** ** More predicates on the renderer *)

(** A string that does not start with white space. *)
Definition cleanStart (s : jsstring) : Prop :=
  match s with
  | [] => True
  | c :: _ => isWhiteSpace c = false
  end.

(** A cell as a reader expects it: not empty, no white space around it, no
    pipe inside it. *)
Definition cleanCell (c : jsstring) : Prop :=
  c <> [] /\ trim c = c /\ ~ In 124%N c.

(** What a section may be: a text section is not empty and holds no fence, a
    diagram section holds trimmed source; no other type is produced. *)
Definition wellFormedSection (s : PaperSection.t) : Prop :=
  match PaperSection.type s with
  | text => PaperSection.content s <> [] /\ ~ hasFence (PaperSection.content s)
  | mermaid => trim (PaperSection.content s) = PaperSection.content s
  | table => False
  end.

(** No two text sections stand side by side. *)
Fixpoint noTextPair (l : list PaperSection.t) : Prop :=
  match l with
  | a :: (b :: _) as l' =>
      (PaperSection.type a = mermaid \/ PaperSection.type b = mermaid) /\
      noTextPair l'
  | _ => True
  end.

(** The list is empty or ends with a diagram section. *)
Fixpoint endsWithDiagram (l : list PaperSection.t) : Prop :=
  match l with
  | [] => True
  | [s] => PaperSection.type s = mermaid
  | _ :: l' => endsWithDiagram l'
  end.

Definition isTableElement (e : Element.t) : bool :=
  match e with
  | Element.table _ _ => true
  | _ => false
  end.

(** While a table is open its buffer holds a line. *)
Definition bufferReady (st : RenderState) : Prop :=
  inTable st = true -> tableBuffer st <> [].

(** ** Predicates on the component state *)

(** The list the component shows is the stored collection. *)
Definition inSync (s : App.State * LocalStorage) : Prop :=
  App.papers (fst s) = getPapers (snd s).

(** The version shown in the editor is one of the current paper. *)
Definition versionOfPaper (st : App.State) : Prop :=
  forall paper v,
    App.currentPaper st = Some paper -> App.currentVersion st = Some v ->
    In v (Paper.versions paper).

(** Every listed and every stored paper holds a version. *)
Definition allHaveVersions (s : App.State * LocalStorage) : Prop :=
  Forall hasVersion (App.papers (fst s)) /\
  Forall hasVersion (getPapers (snd s)).

(** A session on the sample store. *)
Definition demoEvents : list App.Event :=
  [App.OpenPaper 1; App.SetEditing true; App.Edit (u16 "revised");
   App.SaveVersion (u16 "v3") 60; App.SaveVersion (u16 "v4") 61;
   App.DeletePaper (u16 "c") true].

(** The component with paper "b" open and an edit typed in. *)
Definition demoEditing : App.State :=
  match App.handleAll (App.initial, demoStore)
          [App.Mount; App.OpenPaper 1; App.SetEditing true;
           App.Edit (u16 "revised")] with
  | Some s => fst s
  | None => App.initial
  end.

(** ** The pieces of a split

    [split] on a pattern with one capture group returns the fragments between
    the matches at the even indices and the matched spans at the odd ones. *)





(** * Properties of the store *)

Section StoreFacts.

Lemma str_eqb_eq (a b : jsstring) : str_eqb a b = true <-> a = b.
Proof.
  revert b; induction a as [|x a IH]; intros [|y b]; simpl;
    try (split; (discriminate || reflexivity)).
  rewrite andb_true_iff, N.eqb_eq, IH.
  split; [intros [-> ->]; reflexivity | intros H; inversion H; auto].
Qed.

Lemma str_eqb_refl (a : jsstring) : str_eqb a a = true.
Proof. apply str_eqb_eq; reflexivity. Qed.

Lemma str_eqb_neq (a b : jsstring) : str_eqb a b = false <-> a <> b.
Proof.
  rewrite <- str_eqb_eq. destruct (str_eqb a b); split; congruence.
Qed.

Variable A : Type.
Variable f : A -> bool.

(** [findIndex] returns the first position that satisfies the test. *)
Lemma findIndex_Some (l : list A) (i : nat) :
  findIndex f l = Some i ->
  exists before x after,
    l = before ++ x :: after /\ length before = i /\ f x = true /\
    Forall (fun y => f y = false) before.
Proof.
  revert i; induction l as [|a l IH]; intros i H; simpl in H.
  - discriminate.
  - destruct (f a) eqn:Hfa.
    + inversion H; subst. exists [], a, l. auto.
    + destruct (findIndex f l) as [j|]; [|discriminate].
      inversion H; subst.
      destruct (IH j eq_refl) as (before & x & after & -> & Hlen & Hx & Hb).
      exists (a :: before), x, after. simpl. auto.
Qed.

Lemma findIndex_None (l : list A) :
  findIndex f l = None <-> Forall (fun y => f y = false) l.
Proof.
  induction l as [|a l IH]; simpl.
  - split; auto.
  - destruct (f a) eqn:Hfa.
    + split; [discriminate|]. intros H; inversion H; congruence.
    + destruct (findIndex f l); simpl.
      * split; [discriminate|]. intros H; inversion H; subst.
        apply IH in H3. discriminate.
      * split; auto. intros _. constructor; [assumption | apply IH; reflexivity].
Qed.

Lemma nth_error_middle (before after : list A) (x : A) :
  nth_error (before ++ x :: after) (length before) = Some x.
Proof. induction before; simpl; auto. Qed.

Lemma splice1_middle (before after : list A) (x : A) :
  splice1 (before ++ x :: after) (length before) = before ++ after.
Proof.
  unfold splice1. induction before as [|b before IH]; simpl.
  - reflexivity.
  - f_equal. exact IH.
Qed.

End StoreFacts.

(** What [savePaperVersion] does once the paper is located: the papers in
    front of it do not carry the id, and the record is rebuilt around the
    lengthened version list. *)
Lemma savePaperVersion_found ls paperId content versionId timestamp
    before paper after :
  getPapers ls = before ++ paper :: after ->
  Paper.id paper = paperId ->
  Forall (fun q => Paper.id q <> paperId) before ->
  savePaperVersion ls paperId content versionId timestamp =
    let paper' :=
      Paper.mk (Paper.id paper) (Paper.topic paper) (Paper.overview paper)
        (Paper.createdAt paper) timestamp
        (Paper.versions paper ++
           [PaperVersion.mk versionId
              (Z.of_nat (length (Paper.versions paper)) + 1) content timestamp]) in
    (Stored (paper' :: before ++ after), Some paper').
Proof.
  intros Hl Hid Hb. unfold savePaperVersion. rewrite Hl.
  assert (Hfind : findIndex (fun p => str_eqb (Paper.id p) paperId)
                    (before ++ paper :: after) = Some (length before)).
  { clear Hl. induction before as [|b before IH]; simpl.
    - rewrite Hid, str_eqb_refl. reflexivity.
    - inversion Hb; subst.
      destruct (str_eqb (Paper.id b) (Paper.id paper)) eqn:E.
      + apply str_eqb_eq in E. contradiction.
      + rewrite IH by assumption. reflexivity. }
  rewrite Hfind, nth_error_middle, splice1_middle. reflexivity.
Qed.

Lemma savePaperVersion_absent ls paperId content versionId timestamp :
  Forall (fun q => Paper.id q <> paperId) (getPapers ls) ->
  savePaperVersion ls paperId content versionId timestamp = (ls, None).
Proof.
  intros H. unfold savePaperVersion.
  replace (findIndex _ (getPapers ls)) with (@None nat); [reflexivity|].
  symmetry. apply findIndex_None.
  eapply Forall_impl; [|exact H]. intros q Hq. simpl. apply str_eqb_neq, Hq.
Qed.

(** Either the id is absent, or the collection splits around its first
    holder. *)
Lemma locate (papers : list Paper.t) (paperId : jsstring) :
  Forall (fun q => Paper.id q <> paperId) papers \/
  exists before paper after,
    papers = before ++ paper :: after /\ Paper.id paper = paperId /\
    Forall (fun q => Paper.id q <> paperId) before.
Proof.
  destruct (findIndex (fun p => str_eqb (Paper.id p) paperId) papers) as [i|] eqn:E.
  - right. apply findIndex_Some in E.
    destruct E as (before & x & after & -> & _ & Hx & Hb).
    exists before, x, after. split; [reflexivity|]. split.
    + apply str_eqb_eq, Hx.
    + eapply Forall_impl; [|exact Hb]. intros q Hq. apply str_eqb_neq, Hq.
  - left. apply findIndex_None in E.
    eapply Forall_impl; [|exact E]. intros q Hq. apply str_eqb_neq, Hq.
Qed.

(** ** Invariants kept by every operation *)

Lemma countingFrom1_S (n : nat) :
  countingFrom1 (S n) = countingFrom1 n ++ [(Z.of_nat n + 1)%Z].
Proof.
  unfold countingFrom1. rewrite seq_S, map_app. simpl. do 2 f_equal. lia.
Qed.

Lemma countingFrom1_length (n : nat) : length (countingFrom1 n) = n.
Proof. unfold countingFrom1. rewrite length_map, length_seq. reflexivity. Qed.

Section StepInvariant.

(** A property of papers that a new paper has and that appending a version
    with the next number keeps. *)
Variable P : Paper.t -> Prop.
Hypothesis P_new : forall paperId topic overview timestamp versionId content,
  P (Paper.mk paperId topic overview timestamp timestamp
       [PaperVersion.mk versionId 1 content timestamp]).
Hypothesis P_append : forall paper versionId content timestamp,
  P paper ->
  P (Paper.mk (Paper.id paper) (Paper.topic paper) (Paper.overview paper)
       (Paper.createdAt paper) timestamp
       (Paper.versions paper ++
          [PaperVersion.mk versionId
             (Z.of_nat (length (Paper.versions paper)) + 1) content timestamp])).

Lemma step_keeps (ls : LocalStorage) (o : Op) :
  Forall P (getPapers ls) -> Forall P (getPapers (step ls o)).
Proof.
  intros H. destruct o as [tp ov ct pid vid t | pid ct vid t | id]; simpl.
  - constructor; [apply P_new | exact H].
  - destruct (locate (getPapers ls) pid) as [Habs | (b & p & a & Hl & Hid & Hb)].
    + rewrite savePaperVersion_absent by assumption. exact H.
    + rewrite (savePaperVersion_found _ _ _ _ _ _ _ _ Hl Hid Hb). simpl.
      rewrite Hl in H. apply Forall_app in H. destruct H as [H1 H2].
      inversion H2; subst.
      constructor; [apply P_append; assumption | apply Forall_app; auto].
  - apply Forall_forall. intros p Hp. apply filter_In in Hp.
    rewrite Forall_forall in H. apply H, Hp.
Qed.

Lemma run_keeps (ops : list Op) (ls : LocalStorage) :
  Forall P (getPapers ls) -> Forall P (getPapers (run ls ops)).
Proof.
  revert ls. induction ops as [|o ops IH]; intros ls H; simpl.
  - exact H.
  - apply IH, step_keeps, H.
Qed.

End StepInvariant.

Lemma run_hasVersion (ops : list Op) :
  Forall hasVersion (getPapers (run NoItem ops)).
Proof.
  apply run_keeps; unfold hasVersion; simpl; intros.
  - lia.
  - rewrite length_app. simpl. lia.
  - constructor.
Qed.

Lemma run_wellNumbered (ops : list Op) :
  Forall wellNumbered (getPapers (run NoItem ops)).
Proof.
  apply run_keeps; unfold wellNumbered, versionNumbers; simpl; intros.
  - reflexivity.
  - rewrite map_app, length_app, Nat.add_comm. simpl.
    rewrite countingFrom1_S. f_equal. exact H.
  - constructor.
Qed.

(** ** The claims about the store *)

(** C7, as the code has it.  [saveNewPaper] returns a paper whose id is the
    value [generateId] returned during the call; the paper has [createdAt]
    equal to [updatedAt] and holds exactly one version, numbered 1 and stamped
    with the paper's own timestamp; it is written at index 0 of the
    collection, in front of the papers that were there.  Hence the new paper
    has at least one version, and so has every paper of every collection the
    operations build from an empty store.  The identity is new when the
    generator returns an id that no stored paper carries: then no stored paper
    has the id of the new one, and ids that were distinct stay distinct.
    [saveNewPaper] itself compares no ids. *)
Theorem saveNewPaper_creates ls topic overview content paperId versionId timestamp :
  let ls' := fst (saveNewPaper ls topic overview content paperId versionId timestamp) in
  let p := snd (saveNewPaper ls topic overview content paperId versionId timestamp) in
  Paper.id p = paperId /\ Paper.topic p = topic /\ Paper.overview p = overview /\
  Paper.createdAt p = timestamp /\ Paper.createdAt p = Paper.updatedAt p /\
  (exists v, Paper.versions p = [v] /\
     PaperVersion.versionNumber v = 1%Z /\
     PaperVersion.content v = content /\
     PaperVersion.id v = versionId /\
     PaperVersion.createdAt v = Paper.createdAt p /\
     PaperVersion.createdAt v = Paper.updatedAt p) /\
  getPapers ls' = p :: getPapers ls /\
  nth_error (getPapers ls') 0 = Some p /\
  (1 <= length (Paper.versions p))%nat /\
  (forall ops, Forall hasVersion (getPapers (run NoItem ops))) /\
  (~ In paperId (idsOf ls) ->
     (forall q, In q (getPapers ls) -> Paper.id q <> Paper.id p) /\
     (forall q, In q (getPapers ls') -> Paper.id q = Paper.id p -> q = p) /\
     (NoDup (idsOf ls) -> NoDup (idsOf ls'))).
Proof.
  simpl.
  assert (Hfresh : ~ In paperId (idsOf ls) ->
            forall q, In q (getPapers ls) -> Paper.id q <> paperId).
  { intros Hnew q Hq Hid. apply Hnew. unfold idsOf. rewrite <- Hid.
    apply in_map, Hq. }
  repeat split; auto using run_hasVersion.
  - eexists. repeat split.
  - intros q [<-|Hq] Hid; [reflexivity|]. elim (Hfresh H q Hq Hid).
  - intros Hnd. unfold idsOf. simpl. constructor; assumption.
Qed.

Lemma saveNewPaper_creates_witness :
  ~ In (u16 "d") (idsOf demoStore) /\
  (forall q, In q (getPapers demoStore) ->
     Paper.id q <>
     Paper.id (snd (saveNewPaper demoStore (u16 "t") (u16 "o") (u16 "body")
                      (u16 "d") (u16 "v1") 40))) /\
  (NoDup (idsOf demoStore) ->
   NoDup (idsOf (fst (saveNewPaper demoStore (u16 "t") (u16 "o") (u16 "body")
                        (u16 "d") (u16 "v1") 40)))).
Proof.
  assert (H : ~ In (u16 "d") (idsOf demoStore)).
  { unfold idsOf. simpl. intros H.
    repeat (destruct H as [H|H]; [discriminate H|]). exact H. }
  split; [exact H|].
  destruct (saveNewPaper_creates demoStore (u16 "t") (u16 "o") (u16 "body")
              (u16 "d") (u16 "v1") 40)
    as (_ & _ & _ & _ & _ & _ & _ & _ & _ & _ & Hnew).
  destruct (Hnew H) as (H1 & _ & H3).
  split; [exact H1 | exact H3].
Defined.

(** When the generator repeats an id that a stored paper carries, the paper is
    stored all the same: its identity is not new, and two papers share it. *)
Lemma saveNewPaper_repeated_id :
  (exists q, In q (getPapers demoStore) /\
     Paper.id q =
     Paper.id (snd (saveNewPaper demoStore (u16 "t") (u16 "o") (u16 "body")
                      (u16 "a") (u16 "v1") 40))) /\
  NoDup (idsOf demoStore) /\
  ~ NoDup (idsOf (fst (saveNewPaper demoStore (u16 "t") (u16 "o") (u16 "body")
                         (u16 "a") (u16 "v1") 40))).
Proof.
  split; [|split].
  - exists (demoPaper "a" 30 [1%Z]). split; [simpl; auto | reflexivity].
  - unfold idsOf. simpl. repeat constructor; simpl; intros H;
      repeat (destruct H as [H|H]; [discriminate H|]); exact H.
  - unfold idsOf. simpl. intros H. inversion H as [|x l Hnot Hnd]; subst.
    apply Hnot. simpl. auto.
Qed.

(** C1.  When the store holds a paper with the given id, [savePaperVersion]
    picks the first such paper, appends exactly one version to it, numbered
    with the prior version count plus 1 and stamped with the clock reading of
    the call, sets the paper's [updatedAt] to that reading and writes the
    paper at index 0.  The other papers follow in their old order, unchanged,
    and the earlier versions and the other fields of the paper are kept. *)
Theorem savePaperVersion_appends ls paperId content versionId timestamp :
  (exists p, In p (getPapers ls) /\ Paper.id p = paperId) ->
  exists before paper after paper' newVersion,
    getPapers ls = before ++ paper :: after /\
    Paper.id paper = paperId /\
    (forall q, In q before -> Paper.id q <> paperId) /\
    savePaperVersion ls paperId content versionId timestamp =
      (Stored (paper' :: before ++ after), Some paper') /\
    Paper.versions paper' = Paper.versions paper ++ [newVersion] /\
    PaperVersion.versionNumber newVersion =
      (Z.of_nat (length (Paper.versions paper)) + 1)%Z /\
    PaperVersion.content newVersion = content /\
    PaperVersion.id newVersion = versionId /\
    PaperVersion.createdAt newVersion = timestamp /\
    Paper.updatedAt paper' = timestamp /\
    Paper.id paper' = Paper.id paper /\
    Paper.topic paper' = Paper.topic paper /\
    Paper.overview paper' = Paper.overview paper /\
    Paper.createdAt paper' = Paper.createdAt paper.
Proof.
  intros (p & Hin & Hp).
  destruct (locate (getPapers ls) paperId) as [Habs | (b & x & a & Hl & Hid & Hb)].
  - rewrite Forall_forall in Habs. exfalso. exact (Habs p Hin Hp).
  - exists b, x, a. do 2 eexists.
    rewrite (savePaperVersion_found _ _ _ _ _ _ _ _ Hl Hid Hb). simpl.
    rewrite Forall_forall in Hb.
    repeat split; auto.
Qed.

Lemma savePaperVersion_appends_witness :
  (exists p, In p (getPapers demoStore) /\ Paper.id p = u16 "b") /\
  exists before paper after paper' newVersion,
    getPapers demoStore = before ++ paper :: after /\
    Paper.id paper = u16 "b" /\
    (forall q, In q before -> Paper.id q <> u16 "b") /\
    savePaperVersion demoStore (u16 "b") (u16 "edited") (u16 "v3") 40 =
      (Stored (paper' :: before ++ after), Some paper') /\
    Paper.versions paper' = Paper.versions paper ++ [newVersion] /\
    PaperVersion.versionNumber newVersion =
      (Z.of_nat (length (Paper.versions paper)) + 1)%Z /\
    PaperVersion.content newVersion = u16 "edited" /\
    PaperVersion.id newVersion = u16 "v3" /\
    PaperVersion.createdAt newVersion = 40%Z /\
    Paper.updatedAt paper' = 40%Z /\
    Paper.id paper' = Paper.id paper /\
    Paper.topic paper' = Paper.topic paper /\
    Paper.overview paper' = Paper.overview paper /\
    Paper.createdAt paper' = Paper.createdAt paper.
Proof.
  assert (H : exists p, In p (getPapers demoStore) /\ Paper.id p = u16 "b").
  { exists (demoPaper "b" 20 [1%Z; 2%Z]). split; [simpl; auto | reflexivity]. }
  split; [exact H|].
  exact (savePaperVersion_appends demoStore (u16 "b") (u16 "edited") (u16 "v3") 40 H).
Defined.

(** C10.  When no paper of the store carries the given id, [savePaperVersion]
    returns [null] and leaves [localStorage] as it was: no [setItem] happens,
    so the record is the same string, or still missing. *)
Theorem savePaperVersion_not_found ls paperId content versionId timestamp :
  (forall p, In p (getPapers ls) -> Paper.id p <> paperId) ->
  savePaperVersion ls paperId content versionId timestamp = (ls, None).
Proof.
  intros H. apply savePaperVersion_absent. apply Forall_forall. exact H.
Qed.

Lemma savePaperVersion_not_found_witness :
  (forall p, In p (getPapers demoStore) -> Paper.id p <> u16 "zz") /\
  savePaperVersion demoStore (u16 "zz") (u16 "edited") (u16 "v3") 40 =
    (demoStore, None).
Proof.
  assert (H : forall p, In p (getPapers demoStore) -> Paper.id p <> u16 "zz").
  { simpl. intros p [<-|[<-|[<-|[]]]]; discriminate. }
  split; [exact H|].
  exact (savePaperVersion_not_found demoStore (u16 "zz") (u16 "edited") (u16 "v3") 40 H).
Defined.

(** C9.  [deletePaper] with an id that no stored paper carries leaves the
    collection with the same papers, hence the same size; deleting an id a
    second time changes nothing more; and after deleting an id no paper with
    that id is left, version list included, while every other paper stays. *)
Theorem deletePaper_spec ls id :
  ((forall p, In p (getPapers ls) -> Paper.id p <> id) ->
     getPapers (deletePaper ls id) = getPapers ls /\
     length (getPapers (deletePaper ls id)) = length (getPapers ls)) /\
  deletePaper (deletePaper ls id) id = deletePaper ls id /\
  (forall p, In p (getPapers (deletePaper ls id)) <->
             In p (getPapers ls) /\ Paper.id p <> id) /\
  (forall p v, In p (getPapers (deletePaper ls id)) ->
               In v (Paper.versions p) -> Paper.id p <> id) /\
  getPaperById (deletePaper ls id) id = None.
Proof.
  assert (Hin : forall p, In p (getPapers (deletePaper ls id)) <->
                          In p (getPapers ls) /\ Paper.id p <> id).
  { intros p. simpl. rewrite filter_In, negb_true_iff, str_eqb_neq. reflexivity. }
  assert (Hid : forall l, (forall p, In p l -> Paper.id p <> id) ->
            filter (fun p => negb (str_eqb (Paper.id p) id)) l = l).
  { intros l H. apply forallb_filter_id, forallb_forall. intros p Hp.
    apply negb_true_iff, str_eqb_neq, H, Hp. }
  split; [|split; [|split; [|split]]].
  - intros H. simpl. rewrite (Hid _ H). split; reflexivity.
  - unfold deletePaper, setItem. simpl. f_equal.
    apply Hid. intros p Hp. apply (Hin p). exact Hp.
  - exact Hin.
  - intros p v Hp _. apply Hin in Hp. apply Hp.
  - unfold getPaperById.
    destruct (find _ _) as [p|] eqn:E; [|reflexivity].
    apply find_some in E. destruct E as [Hp E].
    apply Hin in Hp. apply str_eqb_eq in E. tauto.
Qed.

Lemma deletePaper_spec_witness :
  (forall p, In p (getPapers demoStore) -> Paper.id p <> u16 "zz") /\
  getPapers (deletePaper demoStore (u16 "zz")) = getPapers demoStore /\
  length (getPapers (deletePaper demoStore (u16 "zz"))) = 3%nat.
Proof.
  assert (H : forall p, In p (getPapers demoStore) -> Paper.id p <> u16 "zz").
  { simpl. intros p [<-|[<-|[<-|[]]]]; discriminate. }
  split; [exact H|].
  exact (proj1 (deletePaper_spec demoStore (u16 "zz")) H).
Defined.

(** C2.  For the paper that [saveNewPaper] creates and any number of
    [savePaperVersion] calls on its id, every call finds the paper, and the
    paper returned by call [k] (counting from 0) numbers its versions
    1, 2, ..., k + 2 in list order; the stored paper ends with the numbers
    1, ..., n + 1 after [n] calls.  Whatever operations are interleaved, every
    paper of a collection built from an empty store is numbered 1, 2, ... up
    to its version count. *)
Theorem versionNumbers_contiguous ls topic overview content paperId versionId
    timestamp (calls : list (jsstring * jsstring * Z)) :
  let created := saveNewPaper ls topic overview content paperId versionId timestamp in
  let appended := appendAll (fst created) (Paper.id (snd created)) calls in
  versionNumbers (snd created) = [1%Z] /\
  length (snd appended) = length calls /\
  (forall k, (k < length calls)%nat ->
     exists p, nth_error (snd appended) k = Some (Some p) /\
               Paper.id p = paperId /\
               versionNumbers p = countingFrom1 (k + 2)) /\
  (exists p rest, getPapers (fst appended) = p :: rest /\
                  Paper.id p = paperId /\
                  versionNumbers p = countingFrom1 (length calls + 1)) /\
  (forall ops, Forall wellNumbered (getPapers (run NoItem ops))).
Proof.
  assert (Hgen : forall calls ls0 p rest n,
    getPapers ls0 = p :: rest -> Paper.id p = paperId ->
    versionNumbers p = countingFrom1 n ->
    let appended := appendAll ls0 paperId calls in
    length (snd appended) = length calls /\
    (forall k, (k < length calls)%nat ->
       exists p', nth_error (snd appended) k = Some (Some p') /\
                  Paper.id p' = paperId /\
                  versionNumbers p' = countingFrom1 (k + S n)) /\
    (exists p' rest', getPapers (fst appended) = p' :: rest' /\
                      Paper.id p' = paperId /\
                      versionNumbers p' = countingFrom1 (length calls + n))).
  { clear calls. induction calls as [|[[ct vid] t] calls IH];
      intros ls0 p rest n Hl Hid Hnum; simpl.
    - split; [reflexivity|]. split; [intros k Hk; lia|].
      exists p, rest. auto.
    - assert (Hlen : length (Paper.versions p) = n).
      { rewrite <- (countingFrom1_length n), <- Hnum.
        unfold versionNumbers. rewrite length_map. reflexivity. }
      rewrite (savePaperVersion_found ls0 paperId ct vid t [] p rest Hl Hid
                 (Forall_nil _)).
      cbv beta iota zeta. simpl app.
      set (p' := Paper.mk _ _ _ _ _ _).
      assert (Hnum' : versionNumbers p' = countingFrom1 (S n)).
      { unfold versionNumbers, p'. simpl. rewrite map_app. simpl.
        rewrite countingFrom1_S, Hlen. f_equal. exact Hnum. }
      specialize (IH (Stored (p' :: rest)) p' rest (S n) eq_refl Hid Hnum').
      cbv zeta in IH.
      assert (Hid' : Paper.id p' = paperId) by exact Hid. clearbody p'.
      destruct (appendAll (Stored (p' :: rest)) paperId calls) as [ls2 rs].
      simpl in *. destruct IH as (IH1 & IH2 & IH3).
      split; [congruence|]. split.
      + intros [|k] Hk; simpl.
        * exists p'. auto.
        * destruct (IH2 k ltac:(lia)) as (q & Hq1 & Hq2 & Hq3).
          exists q. rewrite Nat.add_succ_r in Hq3. auto.
      + destruct IH3 as (q & rest' & Hq1 & Hq2 & Hq3).
        exists q, rest'. rewrite Nat.add_succ_r in Hq3. auto. }
  simpl. split; [reflexivity|].
  specialize (Hgen calls
    (fst (saveNewPaper ls topic overview content paperId versionId timestamp))
    _ _ 1%nat eq_refl eq_refl eq_refl).
  simpl in Hgen. destruct Hgen as (H1 & H2 & H3).
  split; [exact H1|]. split; [exact H2|]. split; [exact H3|].
  apply run_wellNumbered.
Qed.

Lemma versionNumbers_contiguous_witness :
  exists p rest,
    getPapers
      (fst (appendAll
              (fst (saveNewPaper demoStore (u16 "t") (u16 "o") (u16 "first draft")
                      (u16 "d") (u16 "v1") 40))
              (u16 "d") demoCalls)) = p :: rest /\
    Paper.id p = u16 "d" /\
    versionNumbers p = [1%Z; 2%Z; 3%Z].
Proof.
  exact (proj1 (proj2 (proj2 (proj2
    (versionNumbers_contiguous demoStore (u16 "t") (u16 "o") (u16 "first draft")
       (u16 "d") (u16 "v1") 40 demoCalls))))).
Defined.

Section SortedFacts.

Variable A : Type.
Variable R : A -> A -> Prop.

Lemma StronglySorted_filter (f : A -> bool) (l : list A) :
  StronglySorted R l -> StronglySorted R (filter f l).
Proof.
  induction 1 as [|a l Hs IH Ha]; simpl.
  - constructor.
  - destruct (f a); [|exact IH].
    constructor; [exact IH|].
    apply Forall_forall. intros x Hx. apply filter_In in Hx.
    rewrite Forall_forall in Ha. apply Ha, Hx.
Qed.

Lemma StronglySorted_remove (before after : list A) (x : A) :
  StronglySorted R (before ++ x :: after) -> StronglySorted R (before ++ after).
Proof.
  induction before as [|b before IH]; simpl; intros H.
  - apply StronglySorted_inv in H. apply H.
  - apply StronglySorted_inv in H. destruct H as [Hs Hb].
    constructor; [apply IH, Hs|].
    rewrite Forall_app in Hb. destruct Hb as [Hb1 Hb2].
    inversion Hb2; subst. apply Forall_app; auto.
Qed.

End SortedFacts.

(** One operation keeps the recency order when its clock reading is not
    earlier than any stored [updatedAt]; a paper of the new collection is an
    old one or carries the reading of this operation. *)
Lemma step_recency (ls : LocalStorage) (o : Op) :
  recencyOrdered (getPapers ls) ->
  (forall p t, In p (getPapers ls) -> In t (timestamps [o]) ->
               (Paper.updatedAt p <= t)%Z) ->
  recencyOrdered (getPapers (step ls o)) /\
  (forall p, In p (getPapers (step ls o)) ->
     In p (getPapers ls) \/ In (Paper.updatedAt p) (timestamps [o])).
Proof.
  unfold recencyOrdered. intros Hs Hb.
  destruct o as [tp ov ct pid vid t | pid ct vid t | id]; simpl in *.
  - split.
    + constructor; [exact Hs|]. apply Forall_forall. intros p Hp. simpl. auto.
    + intros p [<-|Hp]; simpl; auto.
  - destruct (locate (getPapers ls) pid) as [Habs | (b & p & a & Hl & Hid & Hnb)].
    + rewrite savePaperVersion_absent by assumption. simpl. auto.
    + rewrite (savePaperVersion_found _ _ _ _ _ _ _ _ Hl Hid Hnb). simpl.
      rewrite Hl in Hs, Hb. split.
      * constructor; [eapply StronglySorted_remove; exact Hs|].
        apply Forall_forall. intros q Hq. simpl. apply Hb; [|auto].
        apply in_app_or in Hq. apply in_or_app. simpl. tauto.
      * intros q [<-|Hq]; simpl; [auto|]. left. rewrite Hl.
        apply in_app_or in Hq. apply in_or_app. simpl. tauto.
  - split.
    + apply StronglySorted_filter, Hs.
    + intros p Hp. apply filter_In in Hp. tauto.
Qed.

Lemma timestamps_cons (o : Op) (ops : list Op) :
  timestamps (o :: ops) = timestamps [o] ++ timestamps ops.
Proof. destruct o; reflexivity. Qed.

Lemma run_recency (ops : list Op) (ls : LocalStorage) :
  recencyOrdered (getPapers ls) ->
  StronglySorted Z.le (timestamps ops) ->
  (forall p t, In p (getPapers ls) -> In t (timestamps ops) ->
               (Paper.updatedAt p <= t)%Z) ->
  recencyOrdered (getPapers (run ls ops)).
Proof.
  revert ls. induction ops as [|o ops IH]; intros ls Hs Ht Hb.
  - exact Hs.
  - simpl. rewrite timestamps_cons in Ht, Hb.
    destruct (step_recency ls o Hs) as [Hs' Hnew].
    { intros p t Hp Hin. apply Hb; [exact Hp | apply in_or_app; auto]. }
    apply IH; [exact Hs' | |].
    + destruct o; simpl in Ht; [apply StronglySorted_inv in Ht; apply Ht ..|exact Ht].
    + intros p t Hp Hin. destruct (Hnew p Hp) as [Hold|Hnow].
      * apply Hb; [exact Hold | apply in_or_app; auto].
      * destruct o; simpl in Ht, Hnow; try contradiction;
          destruct Hnow as [<-|[]]; apply StronglySorted_inv in Ht;
          destruct Ht as [_ Ht]; rewrite Forall_forall in Ht; apply Ht, Hin.
Qed.

(** C3.  Start from a collection in recency order whose [updatedAt] values
    are not later than the clock readings to come, and run any sequence of
    create, append and delete operations whose clock readings are
    non-decreasing: [getPapers] then returns the papers by descending
    [updatedAt].  The empty store is such a start, so this holds after every
    such run from it.  And from any store at all, a [savePaperVersion] that
    finds paper D leaves D at index 0. *)
Theorem getPapers_recency_ordered (ls : LocalStorage) (ops : list Op) :
  recencyOrdered (getPapers ls) ->
  (forall p t, In p (getPapers ls) -> In t (timestamps ops) ->
               (Paper.updatedAt p <= t)%Z) ->
  Sorted Z.le (timestamps ops) ->
  recencyOrdered (getPapers (run ls ops)) /\
  (forall ops', Sorted Z.le (timestamps ops') ->
     recencyOrdered (getPapers (run NoItem ops'))) /\
  (forall ls0 paperId content versionId timestamp ls' D,
     savePaperVersion ls0 paperId content versionId timestamp = (ls', Some D) ->
     Paper.id D = paperId /\ nth_error (getPapers ls') 0 = Some D /\
     Paper.updatedAt D = timestamp).
Proof.
  assert (Htrans : Relations_1.Transitive Z.le).
  { intros x y z. apply Z.le_trans. }
  intros Hs Hb Ht. split; [|split].
  - apply run_recency; [exact Hs | | exact Hb].
    apply Sorted_StronglySorted; assumption.
  - intros ops' Ht'. apply run_recency.
    + constructor.
    + apply Sorted_StronglySorted; assumption.
    + intros p t [].
  - intros ls0 pid ct vid t ls' D H.
    destruct (locate (getPapers ls0) pid) as [Habs | (b & p & a & Hl & Hid & Hnb)].
    + rewrite savePaperVersion_absent in H by assumption. discriminate.
    + rewrite (savePaperVersion_found _ _ _ _ _ _ _ _ Hl Hid Hnb) in H.
      simpl in H. inversion H; subst. simpl. auto.
Qed.

Lemma getPapers_recency_ordered_witness :
  recencyOrdered (getPapers demoStore) /\
  Sorted Z.le (timestamps demoOps) /\
  recencyOrdered (getPapers (run demoStore demoOps)).
Proof.
  assert (H1 : recencyOrdered (getPapers demoStore)).
  { unfold recencyOrdered. simpl. repeat constructor; simpl; lia. }
  assert (H2 : forall p t, In p (getPapers demoStore) -> In t (timestamps demoOps) ->
                           (Paper.updatedAt p <= t)%Z).
  { simpl. intros p t [<-|[<-|[<-|[]]]] [<-|[<-|[<-|[]]]]; simpl; lia. }
  assert (H3 : Sorted Z.le (timestamps demoOps)).
  { simpl. repeat constructor; lia. }
  split; [exact H1|]. split; [exact H3|].
  exact (proj1 (getPapers_recency_ordered demoStore demoOps H1 H2 H3)).
Defined.

(** * Properties of the renderer's parsers *)

Lemma startsWith_app (s prefix : jsstring) :
  startsWith s prefix = true -> s = prefix ++ skipn (length prefix) s.
Proof.
  revert s. induction prefix as [|x prefix IH]; intros s H.
  - reflexivity.
  - destruct s as [|y s]; simpl in H; [discriminate|].
    apply andb_true_iff in H. destruct H as [Hxy H].
    apply N.eqb_eq in Hxy. subst y. simpl. f_equal. apply IH, H.
Qed.

Lemma lazyStarThen_unfold allowed lit (s : jsstring) :
  lazyStarThen allowed lit s =
    if startsWith s lit then Some 0%nat
    else match s with
         | [] => None
         | c :: s' =>
           if allowed c then option_map S (lazyStarThen allowed lit s') else None
         end.
Proof. destruct s; reflexivity. Qed.

Lemma lazyStarThen_Some allowed lit (s : jsstring) (k : nat) :
  lazyStarThen allowed lit s = Some k ->
  startsWith (skipn k s) lit = true.
Proof.
  revert k. induction s as [|c s IH]; intros k H;
    rewrite lazyStarThen_unfold in H.
  - destruct (startsWith [] lit) eqn:E; [|discriminate].
    inversion H; subst. exact E.
  - destruct (startsWith (c :: s) lit) eqn:E.
    + inversion H; subst. exact E.
    + destruct (allowed c); [|discriminate].
      destruct (lazyStarThen allowed lit s) as [k'|]; [|discriminate].
      inversion H; subst. simpl. apply IH. reflexivity.
Qed.

(** ** The segmenter *)

Lemma mermaidMatch_fence (s : jsstring) r :
  mermaidMatch s = Some r -> hasFence s.
Proof.
  unfold mermaidMatch. intros H.
  destruct (startsWith s fenceOpen) eqn:Ho; [|discriminate].
  destruct (lazyStarThen _ fenceClose _) as [k|] eqn:Hk; [|discriminate].
  apply startsWith_app in Ho. apply lazyStarThen_Some, startsWith_app in Hk.
  exists [], (firstn k (skipn (length fenceOpen) s)),
    (skipn (length fenceClose) (skipn k (skipn (length fenceOpen) s))).
  rewrite app_nil_l, <- Hk, firstn_skipn. exact Ho.
Qed.

Lemma searchFrom_fence (s : jsstring) (i : nat) r :
  searchFrom s i = Some r -> hasFence s.
Proof.
  revert i. induction s as [|c s IH]; intros i H; simpl in H.
  - discriminate.
  - destruct (mermaidMatch (c :: s)) as [[cap n]|] eqn:Hm.
    + eapply mermaidMatch_fence, Hm.
    + apply IH in H. destruct H as (b & body & a & ->).
      exists (c :: b), body, a. reflexivity.
Qed.

Lemma startsWith_prefix (prefix rest : jsstring) :
  startsWith (prefix ++ rest) prefix = true.
Proof.
  induction prefix as [|x prefix IH]; simpl.
  - destruct rest; reflexivity.
  - rewrite N.eqb_refl. exact IH.
Qed.

Lemma lazyStarThen_finds (lit body rest : jsstring) :
  lazyStarThen (fun _ => true) lit (body ++ lit ++ rest) <> None.
Proof.
  induction body as [|c body IH]; rewrite lazyStarThen_unfold.
  - simpl app. rewrite startsWith_prefix. discriminate.
  - destruct (startsWith _ lit); [discriminate|].
    change (option_map S
              (lazyStarThen (fun _ => true) lit (body ++ lit ++ rest)) <> None).
    destruct (lazyStarThen (fun _ => true) lit (body ++ lit ++ rest));
      [simpl; discriminate | contradiction].
Qed.

Lemma mermaidMatch_finds (body rest : jsstring) :
  mermaidMatch (fenceOpen ++ body ++ fenceClose ++ rest) <> None.
Proof.
  unfold mermaidMatch. rewrite startsWith_prefix.
  rewrite skipn_app, Nat.sub_diag, skipn_all, skipn_O, app_nil_l.
  pose proof (lazyStarThen_finds fenceClose body rest) as Hk.
  destruct (lazyStarThen (fun _ => true) fenceClose (body ++ fenceClose ++ rest));
    [discriminate | contradiction].
Qed.

Lemma searchFrom_unfold (s : jsstring) (i : nat) :
  searchFrom s i =
    match mermaidMatch s with
    | Some (capture, n) => Some (i, capture, (i + n)%nat)
    | None => match s with
              | [] => None
              | _ :: s' => searchFrom s' (S i)
              end
    end.
Proof. destruct s; reflexivity. Qed.

Lemma searchFrom_finds (before s : jsstring) (i : nat) :
  mermaidMatch s <> None -> searchFrom (before ++ s) i <> None.
Proof.
  intros Hm. revert i.
  induction before as [|c before IH]; intros i; rewrite searchFrom_unfold.
  - simpl app. destruct (mermaidMatch s) as [[cap n]|];
      [discriminate | contradiction].
  - destruct (mermaidMatch ((c :: before) ++ s)) as [[cap n]|]; [discriminate|].
    change (searchFrom (before ++ s) (S i) <> None). apply IH.
Qed.

(** The pattern finds a match exactly in the contents that hold a fence. *)
Lemma hasFence_iff_match (content : jsstring) :
  hasFence content <-> mermaidRegex_exec content 0 <> None.
Proof.
  unfold mermaidRegex_exec. simpl. split.
  - intros (b & body & a & ->). apply searchFrom_finds, mermaidMatch_finds.
  - intros H. destruct (searchFrom content 0) as [r|] eqn:E; [|contradiction].
    eapply searchFrom_fence, E.
Qed.

Lemma sectionsLoop_no_match content lastIndex result :
  mermaidRegex_exec content lastIndex = None ->
  sectionsLoop content lastIndex result =
    if (lastIndex <? length content)%nat
    then result ++ [PaperSection.mk text
                      (substring content lastIndex (length content))]
    else result.
Proof.
  intros Hnone. funelim (sectionsLoop content lastIndex result).
  - congruence.
  - reflexivity.
Qed.

Lemma substring_whole (s : jsstring) : substring s 0 (length s) = s.
Proof.
  unfold substring. rewrite Nat.min_id, Nat.min_0_l, Nat.max_0_l, Nat.sub_0_r.
  simpl. apply firstn_all.
Qed.

(** C5, as the code has it.  When the content holds no fence, [sections]
    returns one text section equal to the content, except for the empty
    content, which gives no section at all: the trailing text is pushed
    under the guard [lastIndex < content.length]. *)
Theorem sections_no_fence (content : jsstring) :
  ~ hasFence content ->
  sections content =
    match content with
    | [] => []
    | _ :: _ => [PaperSection.mk text content]
    end.
Proof.
  intros Hno. unfold sections.
  rewrite sectionsLoop_no_match.
  - destruct content as [|c content]; [reflexivity|].
    change (0 <? length (c :: content))%nat with true. cbv iota.
    rewrite substring_whole. reflexivity.
  - unfold mermaidRegex_exec. simpl.
    destruct (searchFrom content 0) eqn:E; [|reflexivity].
    exfalso. apply Hno. eapply searchFrom_fence, E.
Qed.

Lemma no_fence_in_short (content : jsstring) :
  (length content < 13)%nat -> ~ hasFence content.
Proof.
  intros Hlen (b & body & a & ->).
  repeat rewrite length_app in Hlen. simpl in Hlen. lia.
Qed.

Lemma sections_no_fence_witness :
  ~ hasFence (u16 "# Title") /\
  sections (u16 "# Title") = [PaperSection.mk text (u16 "# Title")].
Proof.
  assert (H : ~ hasFence (u16 "# Title")).
  { apply no_fence_in_short. simpl. lia. }
  split; [exact H|].
  exact (sections_no_fence (u16 "# Title") H).
Defined.

(** The document of the specification's example: text, a fence, text. *)
Example sections_three_segments :
  sections (u16 "A" ++ [10%N] ++ fenceOpen ++ [10%N] ++ u16 "X-->Y" ++ [10%N]
            ++ fenceClose ++ [10%N] ++ u16 "B") =
    [PaperSection.mk text (u16 "A" ++ [10%N]);
     PaperSection.mk mermaid (u16 "X-->Y");
     PaperSection.mk text ([10%N] ++ u16 "B")].
Proof. vm_compute. reflexivity. Qed.

(** The empty content holds no fence and yet gives no section. *)
Lemma sections_empty_no_section :
  ~ hasFence [] /\ sections [] <> [PaperSection.mk text []].
Proof.
  split.
  - apply no_fence_in_short. simpl. lia.
  - vm_compute. discriminate.
Qed.

(** ** The table parser *)

Lemma filter_map_swap {A B} (g : A -> B) (f : B -> bool) (l : list A) :
  map g (filter (fun x => f (g x)) l) = filter f (map g l).
Proof.
  induction l as [|a l IH]; simpl; [reflexivity|].
  destruct (f (g a)); simpl; rewrite IH; reflexivity.
Qed.

Lemma rowCells_nonBlank (row : jsstring) : rowCells row = nonBlankCells row.
Proof.
  unfold rowCells, nonBlankCells.
  apply (filter_map_swap trim (fun c => negb (str_eqb c []))).
Qed.

(** C4, as the code has it.  For a non-empty list of lines, the header cells
    are the trimmed fragments of row 0 between pipes with every empty one
    left out, not only the first and the last; row 1 never reaches the
    result, whatever it holds; body row [i] holds the cells of line [i + 2]
    by the same rule, in whatever number that line has. *)
Theorem renderTable_spec (headerRow : jsstring) (rest : list jsstring) :
  renderTable (headerRow :: rest) =
    Some {| headers := nonBlankCells headerRow;
            bodyRows := map nonBlankCells (skipn 1 rest) |} /\
  (forall divider divider' body,
     renderTable (headerRow :: divider :: body) =
     renderTable (headerRow :: divider' :: body)) /\
  (forall i,
     option_map (fun t => nth_error (bodyRows t) i)
       (renderTable (headerRow :: rest)) =
     Some (option_map nonBlankCells (nth_error (headerRow :: rest) (i + 2)))) /\
  (forall c, In c (nonBlankCells headerRow) <->
     c <> [] /\ exists fragment,
       In fragment (splitOn 124%N headerRow) /\ trim fragment = c).
Proof.
  assert (H : renderTable (headerRow :: rest) =
    Some {| headers := nonBlankCells headerRow;
            bodyRows := map nonBlankCells (skipn 1 rest) |}).
  { unfold renderTable. rewrite rowCells_nonBlank. do 2 f_equal.
    change (skipn 2 (headerRow :: rest)) with (skipn 1 rest).
    apply map_ext, rowCells_nonBlank. }
  split; [exact H|]. split; [reflexivity|]. split.
  - intros i. rewrite H. simpl. f_equal.
    rewrite nth_error_map.
    replace (i + 2)%nat with (S (S i)) by lia. simpl.
    destruct rest as [|divider body]; simpl.
    + destruct i; reflexivity.
    + reflexivity.
  - intros c. unfold nonBlankCells.
    rewrite filter_In, in_map_iff, negb_true_iff, str_eqb_neq.
    split.
    + intros [(x & Hx & Hin) Hc]. split; [exact Hc|]. exists x. auto.
    + intros [Hc (x & Hin & Hx)]. split; [|exact Hc]. exists x. auto.
Qed.

(** The table of the specification's example; a body row keeps its own
    number of cells. *)
Example renderTable_example :
  renderTable [u16 "| a | b |"; u16 "|---|---|"; u16 "| 1 | 2 |"; u16 "| 3 |"] =
    Some {| headers := [u16 "a"; u16 "b"];
            bodyRows := [[u16 "1"; u16 "2"]; [u16 "3"]] |}.
Proof. vm_compute. reflexivity. Qed.

(** A blank cell in the middle of the header row is dropped too. *)
Lemma renderTable_drops_inner_blank :
  renderTable [u16 "| a | | b |"] =
    Some {| headers := [u16 "a"; u16 "b"]; bodyRows := [] |} /\
  cellsDroppingEndsOnly (u16 "| a | | b |") = [u16 "a"; []; u16 "b"] /\
  option_map headers (renderTable [u16 "| a | | b |"]) <>
    Some (cellsDroppingEndsOnly (u16 "| a | | b |")).
Proof.
  split; [vm_compute; reflexivity|].
  split; [vm_compute; reflexivity|].
  vm_compute. discriminate.
Qed.

(** ** The inline formatter *)

(** C8, as the code has it.  The formatter turns the string into five nodes:
    the four runs plain, bold, plain, italic, and behind them an empty plain
    run, the piece that [split] keeps after a match that ends the string. *)
Theorem parseFormatting_example :
  parseFormatting (u16 "plain **bold** and *italic*") =
    [plain (u16 "plain "); strong (u16 "bold"); plain (u16 " and ");
     em (u16 "italic"); plain []].
Proof. vm_compute. reflexivity. Qed.

Lemma parseFormatting_example_not_four :
  parseFormatting (u16 "plain **bold** and *italic*") <>
    [plain (u16 "plain "); strong (u16 "bold"); plain (u16 " and ");
     em (u16 "italic")].
Proof. vm_compute. discriminate. Qed.

Lemma countStars_app (a b : jsstring) :
  countStars (a ++ b) = (countStars a + countStars b)%nat.
Proof. apply count_occ_app. Qed.

Lemma countStars_star (s : jsstring) : countStars (star :: s) = S (countStars s).
Proof. unfold countStars. apply count_occ_cons_eq. reflexivity. Qed.

Lemma countStars_skipn (q : nat) (s : jsstring) :
  (countStars (skipn q s) <= countStars s)%nat.
Proof.
  rewrite <- (firstn_skipn q s) at 2. rewrite countStars_app. lia.
Qed.

(** Both alternatives of the pattern need two asterisks to match. *)
Lemma emphasisMatch_two_stars (s : jsstring) (n : nat) :
  emphasisMatch s = Some n -> (2 <= countStars s)%nat.
Proof.
  unfold emphasisMatch. intros H.
  destruct (startsWith s [star; star]) eqn:Hbold.
  - apply startsWith_app in Hbold. rewrite Hbold. simpl app.
    rewrite !countStars_star. lia.
  - destruct (startsWith s [star]) eqn:Hit; [|discriminate].
    destruct (lazyStarThen _ [star] _) as [k|] eqn:Hk; [|discriminate].
    apply startsWith_app in Hit. apply lazyStarThen_Some, startsWith_app in Hk.
    pose proof (countStars_skipn k (skipn 1 s)) as Hle.
    rewrite Hk in Hle. rewrite Hit.
    change ([star] ++ ?x) with (star :: x) in *.
    rewrite countStars_star in *. simpl in *. lia.
Qed.

(** Where the pattern matches nowhere, [split] returns the one piece that
    runs from [p] to the end. *)
Lemma splitLoop_no_match (str : jsstring) (p q : nat) (A : list jsstring) :
  (forall i, emphasisMatch (skipn i str) = None) ->
  splitLoop str p q A = A ++ [substring str p (length str)].
Proof.
  intros Hno. funelim (splitLoop str p q A).
  - reflexivity.
  - auto.
  - specialize (Hno q). congruence.
  - specialize (Hno q). congruence.
Qed.




(** * Further properties of the store *)

Lemma find_app_skip {A} (f : A -> bool) (l1 l2 : list A) :
  Forall (fun x => f x = false) l1 -> find f (l1 ++ l2) = find f l2.
Proof.
  induction 1 as [|x l1 Hx _ IH]; simpl; [reflexivity|].
  rewrite Hx. exact IH.
Qed.

Lemma find_app_other {A} (f : A -> bool) (l1 l2 : list A) (x : A) :
  f x = false -> find f (l1 ++ x :: l2) = find f (l1 ++ l2).
Proof.
  intros Hx. induction l1 as [|a l1 IH]; simpl.
  - rewrite Hx. reflexivity.
  - destruct (f a); [reflexivity | exact IH].
Qed.

Lemma find_filter_other {A} (f g : A -> bool) (l : list A) :
  (forall x, f x = true -> g x = true) ->
  find f (filter g l) = find f l.
Proof.
  intros H. induction l as [|a l IH]; simpl; [reflexivity|].
  destruct (g a) eqn:Hg; simpl.
  - destruct (f a); [reflexivity | exact IH].
  - destruct (f a) eqn:Hf; [|exact IH].
    apply H in Hf. congruence.
Qed.

Lemma str_eqb_sym (a b : jsstring) : str_eqb a b = str_eqb b a.
Proof.
  destruct (str_eqb a b) eqn:E.
  - apply str_eqb_eq in E. subst. symmetry. apply str_eqb_refl.
  - symmetry. apply str_eqb_neq. apply str_eqb_neq in E. congruence.
Qed.

(** X1.  An operation leaves every other id alone: looking up an id that the
    operation does not address gives the same paper before and after it. *)
Theorem getPaperById_other_id (ls : LocalStorage) (o : Op) (id : jsstring) :
  id <> target o ->
  getPaperById (step ls o) id = getPaperById ls id.
Proof.
  intros Hne. unfold getPaperById.
  destruct o as [tp ov ct pid vid t | pid ct vid t | did]; simpl in *.
  - replace (str_eqb pid id) with false; [reflexivity|].
    symmetry. apply str_eqb_neq. congruence.
  - destruct (locate (getPapers ls) pid) as [Habs | (b & q & a & Hl & Hid & Hnb)].
    + rewrite savePaperVersion_absent by assumption. reflexivity.
    + rewrite (savePaperVersion_found _ _ _ _ _ _ _ _ Hl Hid Hnb). simpl.
      assert (Hq : str_eqb (Paper.id q) id = false).
      { apply str_eqb_neq. congruence. }
      rewrite Hq, Hl. symmetry.
      apply (find_app_other (fun p => str_eqb (Paper.id p) id)). exact Hq.
  - apply find_filter_other. intros x Hx. apply str_eqb_eq in Hx.
    apply negb_true_iff, str_eqb_neq. congruence.
Qed.

Lemma getPaperById_other_id_witness :
  u16 "b" <> target (Delete (u16 "a")) /\
  getPaperById (step demoStore (Delete (u16 "a"))) (u16 "b") =
    getPaperById demoStore (u16 "b").
Proof.
  assert (H : u16 "b" <> target (Delete (u16 "a"))) by discriminate.
  split; [exact H|].
  exact (getPaperById_other_id demoStore (Delete (u16 "a")) (u16 "b") H).
Defined.

(** X2.  Lookup after a write returns what was written: the paper
    [saveNewPaper] returns is the one [getPaperById] finds under the new id,
    and the paper a successful [savePaperVersion] returns is the one found
    under its id afterwards. *)
Theorem getPaperById_after_write ls topic overview content paperId versionId timestamp :
  getPaperById
    (fst (saveNewPaper ls topic overview content paperId versionId timestamp))
    paperId =
    Some (snd (saveNewPaper ls topic overview content paperId versionId timestamp)) /\
  (forall ls' updated,
     savePaperVersion ls paperId content versionId timestamp = (ls', Some updated) ->
     getPaperById ls' paperId = Some updated).
Proof.
  split.
  - unfold getPaperById. simpl. rewrite str_eqb_refl. reflexivity.
  - intros ls' updated H.
    destruct (locate (getPapers ls) paperId) as [Habs | (b & q & a & Hl & Hid & Hnb)].
    + rewrite savePaperVersion_absent in H by assumption. discriminate.
    + rewrite (savePaperVersion_found _ _ _ _ _ _ _ _ Hl Hid Hnb) in H.
      simpl in H. inversion H; subst. unfold getPaperById. simpl.
      rewrite str_eqb_refl. reflexivity.
Qed.

(** X3.  [getPaperById] and [savePaperVersion] address the same paper: the
    append returns [null] exactly when the lookup finds nothing, and when the
    lookup finds a paper, the append returns that paper with one version
    more. *)
Theorem savePaperVersion_updates_looked_up ls paperId content versionId timestamp :
  (getPaperById ls paperId = None <->
   snd (savePaperVersion ls paperId content versionId timestamp) = None) /\
  (forall found, getPaperById ls paperId = Some found ->
     exists updated newVersion,
       snd (savePaperVersion ls paperId content versionId timestamp) = Some updated /\
       Paper.versions updated = Paper.versions found ++ [newVersion] /\
       PaperVersion.content newVersion = content /\
       Paper.id updated = Paper.id found /\
       Paper.topic updated = Paper.topic found /\
       Paper.overview updated = Paper.overview found /\
       Paper.createdAt updated = Paper.createdAt found).
Proof.
  unfold getPaperById.
  destruct (locate (getPapers ls) paperId) as [Habs | (b & q & a & Hl & Hid & Hnb)].
  - rewrite savePaperVersion_absent by assumption. simpl.
    assert (Hfind : find (fun p => str_eqb (Paper.id p) paperId) (getPapers ls) = None).
    { destruct (find _ _) as [x|] eqn:E; [|reflexivity].
      apply find_some in E. destruct E as [Hin E]. apply str_eqb_eq in E.
      rewrite Forall_forall in Habs. elim (Habs x Hin E). }
    rewrite Hfind. split; [tauto | discriminate].
  - rewrite (savePaperVersion_found _ _ _ _ _ _ _ _ Hl Hid Hnb). simpl.
    assert (Hfind : find (fun p => str_eqb (Paper.id p) paperId) (getPapers ls) = Some q).
    { rewrite Hl, find_app_skip.
      - simpl. rewrite Hid, str_eqb_refl. reflexivity.
      - eapply Forall_impl; [|exact Hnb]. intros x Hx. apply str_eqb_neq, Hx. }
    rewrite Hfind. split; [split; discriminate|].
    intros found Hf. inversion Hf; subst found.
    do 2 eexists. repeat split.
Qed.

(** X4.  Once a paper is deleted, an append to its id finds nothing: it
    returns [null] and leaves the store as the delete left it. *)
Theorem savePaperVersion_after_delete ls id content versionId timestamp :
  savePaperVersion (deletePaper ls id) id content versionId timestamp =
    (deletePaper ls id, None).
Proof.
  apply savePaperVersion_absent. apply Forall_forall. intros q Hq.
  simpl in Hq. apply filter_In in Hq. destruct Hq as [_ Hq].
  apply negb_true_iff, str_eqb_neq in Hq. exact Hq.
Qed.

(** X5.  In every collection built from an empty store, the [createdAt] of a
    paper is that of its first version and its [updatedAt] is the
    [createdAt] of its latest version. *)
Theorem run_stampsAgree (ops : list Op) :
  Forall stampsAgree (getPapers (run NoItem ops)).
Proof.
  apply run_keeps; unfold stampsAgree, latestVersion; simpl.
  - intros. split; reflexivity.
  - intros paper vid ct t [Hhd _]. split.
    + destruct (Paper.versions paper); [discriminate | exact Hhd].
    + rewrite length_app. simpl.
      replace (length (Paper.versions paper) + 1 - 1)%nat
        with (length (Paper.versions paper)) by lia.
      rewrite nth_error_app2, Nat.sub_diag by lia. reflexivity.
  - constructor.
Qed.

Lemma step_chronological (ls : LocalStorage) (o : Op) :
  Forall (fun p => (Paper.createdAt p <= Paper.updatedAt p)%Z) (getPapers ls) ->
  (forall p t, In p (getPapers ls) -> In t (timestamps [o]) ->
               (Paper.updatedAt p <= t)%Z) ->
  Forall (fun p => (Paper.createdAt p <= Paper.updatedAt p)%Z)
    (getPapers (step ls o)).
Proof.
  intros H Hb.
  destruct o as [tp ov ct pid vid t | pid ct vid t | id]; simpl in *.
  - constructor; [simpl; lia | exact H].
  - destruct (locate (getPapers ls) pid) as [Habs | (b & q & a & Hl & Hid & Hnb)].
    + rewrite savePaperVersion_absent by assumption. exact H.
    + rewrite (savePaperVersion_found _ _ _ _ _ _ _ _ Hl Hid Hnb). simpl.
      rewrite Hl in H, Hb. apply Forall_app in H. destruct H as [H1 H2].
      inversion H2; subst.
      constructor; [|apply Forall_app; auto].
      simpl. assert (Paper.updatedAt q <= t)%Z; [|lia].
      apply Hb; [apply in_or_app; simpl; auto | auto].
  - apply Forall_forall. intros q Hq. apply filter_In in Hq.
    rewrite Forall_forall in H. apply H, Hq.
Qed.

(** X6.  From a collection in which no paper is updated before it is created
    nor after the clock readings to come, a run with non-decreasing readings
    keeps [createdAt <= updatedAt] for every paper; the empty store is such a
    start. *)
Theorem run_chronological (ls : LocalStorage) (ops : list Op) :
  Forall (fun p => (Paper.createdAt p <= Paper.updatedAt p)%Z) (getPapers ls) ->
  (forall p t, In p (getPapers ls) -> In t (timestamps ops) ->
               (Paper.updatedAt p <= t)%Z) ->
  Sorted Z.le (timestamps ops) ->
  Forall (fun p => (Paper.createdAt p <= Paper.updatedAt p)%Z)
    (getPapers (run ls ops)) /\
  (forall ops', Sorted Z.le (timestamps ops') ->
     Forall (fun p => (Paper.createdAt p <= Paper.updatedAt p)%Z)
       (getPapers (run NoItem ops'))).
Proof.
  assert (Hgen : forall ops ls,
    Forall (fun p => (Paper.createdAt p <= Paper.updatedAt p)%Z) (getPapers ls) ->
    (forall p t, In p (getPapers ls) -> In t (timestamps ops) ->
                 (Paper.updatedAt p <= t)%Z) ->
    StronglySorted Z.le (timestamps ops) ->
    Forall (fun p => (Paper.createdAt p <= Paper.updatedAt p)%Z)
      (getPapers (run ls ops))).
  { clear. induction ops as [|o ops IH]; intros ls H Hb Ht; [exact H|].
    simpl. rewrite timestamps_cons in Ht, Hb.
    assert (Hnow : forall p t, In p (getPapers ls) -> In t (timestamps [o]) ->
                               (Paper.updatedAt p <= t)%Z).
    { intros p t Hp Hin. apply Hb; [exact Hp | apply in_or_app; auto]. }
    assert (Hord : forall p, In p (getPapers (step ls o)) ->
              In p (getPapers ls) \/ In (Paper.updatedAt p) (timestamps [o])).
    { intros p Hp.
      destruct o as [tp ov ct pid vid t | pid ct vid t | id]; simpl in *.
      - destruct Hp as [<-|Hp]; simpl; auto.
      - destruct (locate (getPapers ls) pid) as [Habs | (b & q & a & Hl & Hid & Hnb)].
        + rewrite savePaperVersion_absent in Hp by assumption. auto.
        + rewrite (savePaperVersion_found _ _ _ _ _ _ _ _ Hl Hid Hnb) in Hp.
          simpl in Hp. destruct Hp as [<-|Hp]; simpl; [auto|].
          left. rewrite Hl. apply in_app_or in Hp. apply in_or_app. simpl. tauto.
      - apply filter_In in Hp. tauto. }
    apply IH.
    - apply step_chronological; assumption.
    - intros p t Hp Hin. destruct (Hord p Hp) as [Hold|Hnew].
      + apply Hb; [exact Hold | apply in_or_app; auto].
      + destruct o; simpl in Ht, Hnew; try contradiction;
          destruct Hnew as [<-|[]]; apply StronglySorted_inv in Ht;
          destruct Ht as [_ Ht]; rewrite Forall_forall in Ht; apply Ht, Hin.
    - destruct o; simpl in Ht;
        [apply StronglySorted_inv in Ht; apply Ht ..|exact Ht]. }
  assert (Htrans : Relations_1.Transitive Z.le).
  { intros x y z. apply Z.le_trans. }
  intros H Hb Ht. split.
  - apply Hgen; [exact H | exact Hb |].
    apply Sorted_StronglySorted; assumption.
  - intros ops' Ht'. apply Hgen.
    + constructor.
    + intros p t [].
    + apply Sorted_StronglySorted; assumption.
Qed.

Lemma run_chronological_witness :
  Forall (fun p => (Paper.createdAt p <= Paper.updatedAt p)%Z) (getPapers demoStore) /\
  Sorted Z.le (timestamps demoOps) /\
  Forall (fun p => (Paper.createdAt p <= Paper.updatedAt p)%Z)
    (getPapers (run demoStore demoOps)).
Proof.
  assert (H1 : Forall (fun p => (Paper.createdAt p <= Paper.updatedAt p)%Z)
                 (getPapers demoStore)).
  { simpl. repeat constructor; simpl; lia. }
  assert (H2 : forall p t, In p (getPapers demoStore) -> In t (timestamps demoOps) ->
                           (Paper.updatedAt p <= t)%Z).
  { simpl. intros p t [<-|[<-|[<-|[]]]] [<-|[<-|[<-|[]]]]; simpl; lia. }
  assert (H3 : Sorted Z.le (timestamps demoOps)).
  { simpl. repeat constructor; lia. }
  split; [exact H1|]. split; [exact H3|].
  exact (proj1 (run_chronological demoStore demoOps H1 H2 H3)).
Defined.

Lemma NoDup_map_filter {A B} (f : A -> B) (g : A -> bool) (l : list A) :
  NoDup (map f l) -> NoDup (map f (filter g l)).
Proof.
  induction l as [|a l IH]; simpl; intros H; [constructor|].
  inversion H; subst. destruct (g a); simpl; [|auto].
  constructor; [|auto].
  intros Hin. apply in_map_iff in Hin. destruct Hin as (x & Hx & Hin).
  apply filter_In in Hin. apply H2. rewrite <- Hx. apply in_map, Hin.
Qed.

(** X7.  Identities stay distinct: when no two stored papers share an id and
    a create brings an id the store does not hold, no two papers share an id
    after the operation.  Append and delete need no condition. *)
Theorem step_keeps_ids_distinct (ls : LocalStorage) (o : Op) :
  NoDup (idsOf ls) -> freshFor ls o -> NoDup (idsOf (step ls o)).
Proof.
  unfold idsOf. intros Hnd Hfresh.
  destruct o as [tp ov ct pid vid t | pid ct vid t | id]; simpl in *.
  - constructor; assumption.
  - destruct (locate (getPapers ls) pid) as [Habs | (b & q & a & Hl & Hid & Hnb)].
    + rewrite savePaperVersion_absent by assumption. exact Hnd.
    + rewrite (savePaperVersion_found _ _ _ _ _ _ _ _ Hl Hid Hnb). simpl.
      rewrite Hl, map_app in Hnd. simpl in Hnd.
      rewrite map_app. constructor.
      * apply NoDup_remove_2 in Hnd. exact Hnd.
      * apply NoDup_remove_1 in Hnd. exact Hnd.
  - apply NoDup_map_filter, Hnd.
Qed.

Lemma step_keeps_ids_distinct_witness :
  NoDup (idsOf demoStore) /\
  freshFor demoStore (Create (u16 "t") (u16 "o") (u16 "body") (u16 "d") (u16 "v1") 40) /\
  NoDup (idsOf (step demoStore
                  (Create (u16 "t") (u16 "o") (u16 "body") (u16 "d") (u16 "v1") 40))).
Proof.
  assert (H1 : NoDup (idsOf demoStore)).
  { unfold idsOf. simpl. repeat constructor; simpl; intros H;
      repeat (destruct H as [H|H]; [discriminate H|]); exact H. }
  assert (H2 : freshFor demoStore
                 (Create (u16 "t") (u16 "o") (u16 "body") (u16 "d") (u16 "v1") 40)).
  { unfold freshFor, idsOf. simpl. intros H.
    repeat (destruct H as [H|H]; [discriminate H|]). exact H. }
  split; [exact H1|]. split; [exact H2|].
  exact (step_keeps_ids_distinct demoStore _ H1 H2).
Defined.

(** * Further properties of the inline formatter *)

Lemma splitLoop_end (str : jsstring) (p q : nat) (A : list jsstring) :
  (length str <= q)%nat ->
  splitLoop str p q A = A ++ [substring str p (length str)].
Proof.
  intros Hle. funelim (splitLoop str p q A); try reflexivity;
    pose proof (proj1 (Nat.ltb_lt _ _) Hq); lia.
Qed.

Lemma splitLoop_skip (str : jsstring) (p q : nat) (A : list jsstring) :
  (q < length str)%nat -> emphasisMatch (skipn q str) = None ->
  splitLoop str p q A = splitLoop str p (q + 1) A.
Proof.
  intros Hlt Hnone. funelim (splitLoop str p q A);
    try reflexivity; try congruence.
  pose proof (proj1 (Nat.ltb_ge _ _) e). lia.
Qed.

Lemma splitLoop_match (str : jsstring) (p q n : nat) (A : list jsstring) :
  (q < length str)%nat -> emphasisMatch (skipn q str) = Some n ->
  Nat.min (q + n) (length str) <> p ->
  splitLoop str p q A =
    splitLoop str (Nat.min (q + n) (length str)) (Nat.min (q + n) (length str))
      (A ++ [substring str p q;
             substring str q (Nat.min (q + n) (length str))]).
Proof.
  intros Hlt Hsome Hne. funelim (splitLoop str p q A).
  - pose proof (proj1 (Nat.ltb_ge _ _) e). lia.
  - congruence.
  - pose proof (proj1 (Nat.eqb_eq _ _) e) as He.
    rewrite Hm in Hsome. inversion Hsome; subst. lia.
  - rewrite Hm in Hsome. inversion Hsome; subst. reflexivity.
Qed.

Lemma splitLoop_skip_many (str : jsstring) (p : nat) (A : list jsstring)
    (k q : nat) :
  (q + k <= length str)%nat ->
  (forall i, (q <= i < q + k)%nat -> emphasisMatch (skipn i str) = None) ->
  splitLoop str p q A = splitLoop str p (q + k) A.
Proof.
  revert q. induction k as [|k IH]; intros q Hle Hnone.
  - rewrite Nat.add_0_r. reflexivity.
  - rewrite splitLoop_skip by (try apply Hnone; lia).
    rewrite IH by (try (intros i Hi; apply Hnone); lia).
    f_equal. lia.
Qed.

Lemma splitLoop_no_match_from (str : jsstring) (p q : nat) (A : list jsstring) :
  (forall i, (q <= i)%nat -> emphasisMatch (skipn i str) = None) ->
  splitLoop str p q A = A ++ [substring str p (length str)].
Proof.
  intros Hno. funelim (splitLoop str p q A).
  - reflexivity.
  - apply H. intros i Hi. apply Hno. lia.
  - specialize (Hno q (Nat.le_refl q)). congruence.
  - specialize (Hno q (Nat.le_refl q)). congruence.
Qed.

Lemma substring_from_prefix (s : jsstring) (a b : nat) :
  (a <= b <= length s)%nat -> firstn a s ++ substring s a b = firstn b s.
Proof.
  intros H. unfold substring.
  rewrite !Nat.min_l, Nat.max_r by lia.
  rewrite <- (firstn_skipn a (firstn b s)).
  rewrite firstn_firstn, Nat.min_l by lia.
  rewrite skipn_firstn_comm. reflexivity.
Qed.

Lemma substring_to_end (s : jsstring) (a : nat) :
  firstn a s ++ substring s a (length s) = s.
Proof.
  destruct (Nat.le_gt_cases a (length s)) as [Hle|Hgt].
  - rewrite substring_from_prefix by lia. apply firstn_all.
  - unfold substring. rewrite Nat.min_id, (Nat.min_r a) by lia.
    rewrite Nat.min_id, Nat.max_id, Nat.sub_diag. simpl.
    rewrite app_nil_r. apply firstn_all2. lia.
Qed.

Lemma concat_splitLoop (str : jsstring) (p q : nat) (A : list jsstring) :
  (p <= q)%nat -> concat A = firstn p str ->
  concat (splitLoop str p q A) = str.
Proof.
  intros Hpq HA. funelim (splitLoop str p q A).
  - rewrite concat_app, HA. simpl. rewrite app_nil_r. apply substring_to_end.
  - apply H; [lia | exact HA].
  - apply H; [lia | exact HA].
  - pose proof (proj1 (Nat.ltb_lt _ _) Hq). apply H; [lia|].
    rewrite concat_app, HA. simpl. rewrite app_nil_r, app_assoc.
    rewrite !substring_from_prefix by lia. reflexivity.
Qed.

(** X8.  Splitting loses nothing: the pieces that [split] returns for the
    emphasis pattern, put together again in order, are the text. *)
Theorem splitEmphasis_concat (text : jsstring) :
  concat (splitEmphasis text) = text.
Proof.
  unfold splitEmphasis. destruct text as [|c text].
  - reflexivity.
  - apply concat_splitLoop; [lia | reflexivity].
Qed.

Lemma emphasisMatch_other_head (c : char16) (s : jsstring) :
  c <> star -> emphasisMatch (c :: s) = None.
Proof.
  intros Hc. unfold emphasisMatch, star in *.
  assert (H : (42 =? c)%N = false) by (apply N.eqb_neq; congruence).
  cbn [startsWith]. rewrite H. reflexivity.
Qed.

Lemma countStars_zero_head (c : char16) (s : jsstring) :
  countStars (c :: s) = 0%nat -> c <> star /\ countStars s = 0%nat.
Proof.
  unfold countStars. simpl. destruct (N.eq_dec c star); [discriminate|]. auto.
Qed.

Lemma emphasisMatch_star_free (s : jsstring) :
  countStars s = 0%nat -> emphasisMatch s = None.
Proof.
  intros H. destruct (emphasisMatch s) as [n|] eqn:E; [|reflexivity].
  apply emphasisMatch_two_stars in E. lia.
Qed.

Lemma formatPart_star_free (s : jsstring) :
  countStars s = 0%nat -> formatPart s = plain s.
Proof.
  intros H. unfold formatPart. destruct s as [|c s]; [reflexivity|].
  apply countStars_zero_head in H. destruct H as [Hc _].
  unfold star in *.
  assert (E : (42 =? c)%N = false) by (apply N.eqb_neq; congruence).
  cbn [startsWith]. rewrite E. reflexivity.
Qed.

(** X9.  A text without any asterisk, the empty text included, comes back as
    one plain run equal to the text. *)
Theorem parseFormatting_star_free (text : jsstring) :
  countStars text = 0%nat -> parseFormatting text = [plain text].
Proof.
  intros H. unfold parseFormatting, splitEmphasis.
  destruct text as [|c text]; [reflexivity|].
  rewrite splitLoop_no_match.
  - rewrite substring_whole. simpl. rewrite formatPart_star_free by exact H.
    reflexivity.
  - intros i. apply emphasisMatch_star_free.
    pose proof (countStars_skipn i (c :: text)). lia.
Qed.

Lemma parseFormatting_star_free_witness :
  countStars (u16 "Methods and results") = 0%nat /\
  parseFormatting (u16 "Methods and results") = [plain (u16 "Methods and results")].
Proof.
  assert (H : countStars (u16 "Methods and results") = 0%nat) by reflexivity.
  split; [exact H|].
  exact (parseFormatting_star_free (u16 "Methods and results") H).
Defined.

Lemma lazyStarThen_span (lit body post : jsstring) :
  countStars body = 0%nat ->
  Forall (fun c => isLineTerminator c = false) body ->
  (exists l, lit = star :: l) ->
  lazyStarThen (fun c => negb (isLineTerminator c)) lit (body ++ lit ++ post) =
    Some (length body).
Proof.
  intros Hstars Hlt [l ->]. induction body as [|c body IH];
    rewrite lazyStarThen_unfold.
  - rewrite app_nil_l, startsWith_prefix. reflexivity.
  - apply countStars_zero_head in Hstars. destruct Hstars as [Hc Hstars].
    inversion Hlt; subst.
    assert (E : (star =? c)%N = false) by (apply N.eqb_neq; congruence).
    change (startsWith ((c :: body) ++ (star :: l) ++ post) (star :: l))
      with ((star =? c)%N && startsWith (body ++ (star :: l) ++ post) l).
    rewrite E. cbn [andb app]. rewrite H1. cbn [negb].
    specialize (IH Hstars H2). cbn [app] in IH. rewrite IH. reflexivity.
Qed.

Lemma skipn_app_exact {A} (a b : list A) : skipn (length a) (a ++ b) = b.
Proof. induction a; simpl; auto. Qed.

Lemma firstn_app_exact {A} (a b : list A) : firstn (length a) (a ++ b) = a.
Proof. induction a; simpl; [destruct b; reflexivity | f_equal; auto]. Qed.

Lemma substring_middle (a b c : jsstring) :
  substring (a ++ b ++ c) (length a) (length a + length b) = b.
Proof.
  unfold substring. rewrite !length_app.
  rewrite !Nat.min_l, Nat.max_r by lia.
  replace (length a + length b - length a)%nat with (length b) by lia.
  rewrite skipn_app_exact. apply firstn_app_exact.
Qed.

Lemma star_free_suffix_head (pre rest : jsstring) (i : nat) :
  countStars pre = 0%nat -> (i < length pre)%nat ->
  exists c s, skipn i (pre ++ rest) = c :: s /\ c <> star.
Proof.
  revert i. induction pre as [|c pre IH]; intros i Hs Hi; simpl in Hi; [lia|].
  apply countStars_zero_head in Hs. destruct Hs as [Hc Hs].
  destruct i as [|i].
  - exists c, (pre ++ rest). auto.
  - simpl. apply IH; [exact Hs | lia].
Qed.

(** A text with one match: plain text without asterisks, the matched piece,
    plain text without asterisks. *)
Lemma splitEmphasis_one_match (pre mid post : jsstring) :
  countStars pre = 0%nat -> countStars post = 0%nat ->
  emphasisMatch (mid ++ post) = Some (length mid) ->
  splitEmphasis (pre ++ mid ++ post) = [pre; mid; post].
Proof.
  intros Hpre Hpost Hm.
  assert (Hmid : (0 < length mid)%nat).
  { destruct mid; [|simpl; lia]. simpl in Hm.
    rewrite emphasisMatch_star_free in Hm by exact Hpost. discriminate. }
  set (str := pre ++ mid ++ post).
  assert (Hlen : length str = (length pre + length mid + length post)%nat).
  { unfold str. rewrite !length_app. lia. }
  assert (Hsplit : splitEmphasis str = splitLoop str 0 0 []).
  { destruct str; [simpl in Hlen; lia | reflexivity]. }
  rewrite Hsplit.
  rewrite (splitLoop_skip_many str 0 [] (length pre) 0).
  2: lia.
  2: { intros i Hi. unfold str.
       destruct (star_free_suffix_head pre (mid ++ post) i Hpre) as (c & s & -> & Hc);
         [lia|]. apply emphasisMatch_other_head, Hc. }
  simpl Nat.add.
  assert (Hskip : skipn (length pre) str = mid ++ post) by apply skipn_app_exact.
  rewrite (splitLoop_match str 0 (length pre) (length mid) []);
    [| lia | rewrite Hskip; exact Hm | lia].
  replace (Nat.min (length pre + length mid) (length str))
    with (length pre + length mid)%nat by lia.
  rewrite splitLoop_no_match_from.
  - simpl app.
    assert (H1 : substring str 0 (length pre) = pre).
    { apply (substring_middle [] pre (mid ++ post)). }
    assert (H2 : substring str (length pre) (length pre + length mid) = mid).
    { apply substring_middle. }
    assert (H3 : substring str (length pre + length mid) (length str) = post).
    { unfold str at 1. rewrite Hlen.
      replace (pre ++ mid ++ post) with ((pre ++ mid) ++ post ++ [])
        by (rewrite app_nil_r, app_assoc; reflexivity).
      rewrite <- (length_app pre mid). apply substring_middle. }
    rewrite H1, H2, H3. reflexivity.
  - intros i Hi. apply emphasisMatch_star_free.
    assert (Hs : skipn i str = skipn (i - (length pre + length mid)) post).
    { unfold str. rewrite app_assoc, skipn_app, length_app.
      rewrite (skipn_all2 (pre ++ mid)) by (rewrite length_app; lia).
      reflexivity. }
    rewrite Hs. pose proof (countStars_skipn (i - (length pre + length mid)) post).
    lia.
Qed.

Lemma endsWith_suffix (front suffix : jsstring) :
  endsWith (front ++ suffix) suffix = true.
Proof.
  unfold endsWith. rewrite rev_app_distr. apply startsWith_prefix.
Qed.

Lemma slice_inner (m body : jsstring) :
  (0 < length m)%nat ->
  slice (m ++ body ++ m) (Z.of_nat (length m)) (- Z.of_nat (length m)) = body.
Proof.
  intros Hm. unfold slice. rewrite !length_app.
  destruct (Z.ltb_spec (Z.of_nat (length m)) 0) as [Hneg|_]; [lia|].
  destruct (Z.ltb_spec (- Z.of_nat (length m)) 0) as [_|Hz]; [|lia].
  replace (Z.to_nat (Z.min _ _)) with (length m) by lia.
  replace (Z.to_nat (Z.max _ 0)) with (length body) by lia.
  rewrite skipn_app_exact. apply firstn_app_exact.
Qed.

(** X10.  A bold span between plain text: when the text before, inside and
    after the two double asterisks holds no asterisk, and the inside no line
    terminator, the formatter returns the plain run before, the bold run with
    the inside, and the plain run after. *)
Theorem parseFormatting_bold_span (pre body post : jsstring) :
  countStars pre = 0%nat -> countStars body = 0%nat -> countStars post = 0%nat ->
  Forall (fun c => isLineTerminator c = false) body ->
  parseFormatting (pre ++ [star; star] ++ body ++ [star; star] ++ post) =
    [plain pre; strong body; plain post].
Proof.
  intros Hpre Hbody Hpost Hlt.
  set (mid := [star; star] ++ body ++ [star; star]).
  assert (Hm : emphasisMatch (mid ++ post) = Some (length mid)).
  { unfold emphasisMatch, mid. cbv zeta.
    replace (([star; star] ++ body ++ [star; star]) ++ post)
      with ([star; star] ++ body ++ [star; star] ++ post)
      by (rewrite <- !app_assoc; reflexivity).
    rewrite startsWith_prefix.
    change (skipn 2 ([star; star] ++ body ++ [star; star] ++ post))
      with (body ++ [star; star] ++ post).
    rewrite lazyStarThen_span by (try assumption; eexists; reflexivity).
    simpl. rewrite length_app. simpl. f_equal; lia. }
  unfold parseFormatting.
  replace (pre ++ [star; star] ++ body ++ [star; star] ++ post)
    with (pre ++ mid ++ post)
    by (unfold mid; rewrite <- !app_assoc; reflexivity).
  rewrite splitEmphasis_one_match by assumption.
  simpl map.
  rewrite (formatPart_star_free pre Hpre), (formatPart_star_free post Hpost).
  do 2 f_equal. unfold formatPart, mid.
  rewrite startsWith_prefix.
  rewrite (app_assoc [star; star] body [star; star]), endsWith_suffix.
  rewrite <- app_assoc. cbn [andb].
  f_equal. apply (slice_inner [star; star] body). simpl. lia.
Qed.

Lemma parseFormatting_bold_span_witness :
  parseFormatting (u16 "see " ++ [star; star] ++ u16 "Table 1" ++ [star; star]
                   ++ u16 " below") =
    [plain (u16 "see "); strong (u16 "Table 1"); plain (u16 " below")].
Proof.
  apply (parseFormatting_bold_span (u16 "see ") (u16 "Table 1") (u16 " below"));
    try reflexivity.
  repeat constructor.
Defined.

(** X11.  An italic span between plain text: when the text before, inside
    and after the two asterisks holds no asterisk, and the inside is not empty
    and holds no line terminator, the formatter returns the plain run before,
    the italic run with the inside, and the plain run after. *)
Theorem parseFormatting_italic_span (pre body post : jsstring) :
  countStars pre = 0%nat -> countStars body = 0%nat -> countStars post = 0%nat ->
  Forall (fun c => isLineTerminator c = false) body ->
  body <> [] ->
  parseFormatting (pre ++ [star] ++ body ++ [star] ++ post) =
    [plain pre; em body; plain post].
Proof.
  intros Hpre Hbody Hpost Hlt Hne.
  destruct body as [|b body]; [congruence|]. clear Hne.
  set (inner := b :: body) in *.
  assert (Hb : (42 =? b)%N = false).
  { apply countStars_zero_head in Hbody. apply N.eqb_neq.
    unfold star in Hbody. intuition congruence. }
  set (mid := [star] ++ inner ++ [star]).
  assert (Hm : emphasisMatch (mid ++ post) = Some (length mid)).
  { unfold emphasisMatch, mid. cbv zeta.
    replace (([star] ++ inner ++ [star]) ++ post)
      with ([star] ++ inner ++ [star] ++ post)
      by (rewrite <- !app_assoc; reflexivity).
    replace (startsWith ([star] ++ inner ++ [star] ++ post) [star; star])
      with false
      by (unfold inner, star; cbn [startsWith app]; rewrite Hb;
          rewrite andb_false_r; reflexivity).
    rewrite startsWith_prefix.
    change (skipn 1 ([star] ++ inner ++ [star] ++ post))
      with (inner ++ [star] ++ post).
    rewrite lazyStarThen_span by (try assumption; eexists; reflexivity).
    simpl. rewrite length_app. simpl. f_equal; lia. }
  unfold parseFormatting.
  replace (pre ++ [star] ++ inner ++ [star] ++ post)
    with (pre ++ mid ++ post)
    by (unfold mid; rewrite <- !app_assoc; reflexivity).
  rewrite splitEmphasis_one_match by assumption.
  simpl map.
  rewrite (formatPart_star_free pre Hpre), (formatPart_star_free post Hpost).
  do 2 f_equal. unfold formatPart, mid.
  replace (startsWith ([star] ++ inner ++ [star]) [star; star]) with false
    by (unfold inner, star; cbn [startsWith app]; rewrite Hb;
        rewrite andb_false_r; reflexivity).
  rewrite startsWith_prefix.
  rewrite (app_assoc [star] inner [star]), endsWith_suffix.
  rewrite <- app_assoc. cbn [andb].
  f_equal. apply (slice_inner [star] inner). simpl. lia.
Qed.

Lemma parseFormatting_italic_span_witness :
  parseFormatting (u16 "a " ++ [star] ++ u16 "p" ++ [star] ++ u16 " value") =
    [plain (u16 "a "); em (u16 "p"); plain (u16 " value")].
Proof.
  apply (parseFormatting_italic_span (u16 "a ") (u16 "p") (u16 " value"));
    try reflexivity.
  - repeat constructor.
  - discriminate.
Defined.

(** * Further properties of the table parser *)

Lemma trimStart_cleanStart (s : jsstring) : cleanStart (trimStart s).
Proof.
  induction s as [|c s IH]; simpl; [exact I|].
  destruct (isWhiteSpace c) eqn:E; [exact IH | exact E].
Qed.

Lemma trimStart_fixed (s : jsstring) : cleanStart s -> trimStart s = s.
Proof. destruct s as [|c s]; simpl; [reflexivity|]. intros ->. reflexivity. Qed.

Lemma trimStart_suffix (s : jsstring) : exists w, s = w ++ trimStart s.
Proof.
  induction s as [|c s [w IH]]; simpl.
  - exists []. reflexivity.
  - destruct (isWhiteSpace c).
    + exists (c :: w). simpl. f_equal. exact IH.
    + exists []. reflexivity.
Qed.

Lemma trimEnd_prefix (s : jsstring) : exists w, s = trimEnd s ++ w.
Proof.
  unfold trimEnd. destruct (trimStart_suffix (rev s)) as [w Hw].
  exists (rev w). rewrite <- rev_app_distr, <- Hw, rev_involutive. reflexivity.
Qed.

Lemma trimEnd_cleanStart (s : jsstring) : cleanStart s -> cleanStart (trimEnd s).
Proof.
  intros H. destruct (trimEnd_prefix s) as [w Hw].
  destruct (trimEnd s) as [|c t]; [exact I|].
  rewrite Hw in H. exact H.
Qed.

Lemma trim_fixed (s : jsstring) :
  cleanStart s -> cleanStart (rev s) -> trim s = s.
Proof.
  intros H1 H2. unfold trim, trimEnd.
  rewrite (trimStart_fixed s H1), (trimStart_fixed (rev s) H2).
  apply rev_involutive.
Qed.

Lemma trim_clean (s : jsstring) :
  cleanStart (trim s) /\ cleanStart (rev (trim s)).
Proof.
  split.
  - unfold trim. apply trimEnd_cleanStart, trimStart_cleanStart.
  - unfold trim, trimEnd. rewrite rev_involutive. apply trimStart_cleanStart.
Qed.

Lemma trim_idempotent (s : jsstring) : trim (trim s) = trim s.
Proof. apply trim_fixed; apply trim_clean. Qed.

Lemma trim_incl (s : jsstring) (c : char16) : In c (trim s) -> In c s.
Proof.
  intros H. destruct (trimStart_suffix s) as [w1 H1].
  destruct (trimEnd_prefix (trimStart s)) as [w2 H2].
  rewrite H1. apply in_or_app. right.
  rewrite H2. apply in_or_app. left. exact H.
Qed.

Lemma splitOn_no_separator (sep : char16) (s piece : jsstring) :
  In piece (splitOn sep s) -> ~ In sep piece.
Proof.
  revert piece. induction s as [|c s IH]; simpl; intros piece H.
  - destruct H as [<-|[]]. intros [].
  - destruct (N.eqb_spec c sep) as [->|Hne].
    + destruct H as [<-|H]; [intros [] | apply IH, H].
    + destruct (splitOn sep s) as [|first pieces] eqn:E.
      * destruct H as [<-|[]]. intros [H|[]]. congruence.
      * destruct H as [<-|H].
        -- intros [H|H]; [congruence|]. revert H. apply IH. left. reflexivity.
        -- apply IH. right. exact H.
Qed.

Lemma rowCells_clean (row : jsstring) : Forall cleanCell (rowCells row).
Proof.
  unfold rowCells. apply Forall_forall. intros c Hc.
  apply in_map_iff in Hc. destruct Hc as (fragment & <- & Hin).
  apply filter_In in Hin. destruct Hin as [Hin Hne].
  apply negb_true_iff, str_eqb_neq in Hne.
  split; [exact Hne|]. split; [apply trim_idempotent|].
  intros Hpipe. apply trim_incl in Hpipe.
  exact (splitOn_no_separator _ _ _ Hin Hpipe).
Qed.

(** X12.  For a non-empty list of lines [renderTable] does not throw, and
    every header cell and every body cell it lays out is non-empty, carries no
    white space at either end and holds no pipe. *)
Theorem renderTable_cells_clean (headerRow : jsstring) (rest : list jsstring) :
  exists cells,
    renderTable (headerRow :: rest) = Some cells /\
    Forall cleanCell (headers cells) /\
    Forall (Forall cleanCell) (bodyRows cells).
Proof.
  eexists. split; [reflexivity|]. simpl. split.
  - apply rowCells_clean.
  - apply Forall_forall. intros r Hr. apply in_map_iff in Hr.
    destruct Hr as (row & <- & _). apply rowCells_clean.
Qed.

(** * Further properties of the segmenter *)

Lemma mermaidMatch_Some (s capture : jsstring) (n : nat) :
  mermaidMatch s = Some (capture, n) ->
  s = fenceOpen ++ capture ++ fenceClose ++ skipn n s /\
  n = (length fenceOpen + length capture + length fenceClose)%nat.
Proof.
  unfold mermaidMatch. intros H.
  destruct (startsWith s fenceOpen) eqn:Ho; [|discriminate].
  destruct (lazyStarThen _ fenceClose _) as [k|] eqn:Hk; [|discriminate].
  assert (Hc : capture = firstn k (skipn (length fenceOpen) s)) by congruence.
  assert (Hn : n = (length fenceOpen + k + length fenceClose)%nat) by congruence.
  clear H. subst capture n.
  apply startsWith_app in Ho. apply lazyStarThen_Some, startsWith_app in Hk.
  set (body := skipn (length fenceOpen) s) in *.
  assert (Hlen : (k < length body)%nat).
  { destruct (Nat.lt_ge_cases k (length body)) as [|Hge]; [assumption|].
    rewrite skipn_all2 in Hk by exact Hge. discriminate. }
  assert (Hcap : length (firstn k body) = k).
  { rewrite length_firstn. lia. }
  split; [|rewrite Hcap; reflexivity].
  replace (skipn (length fenceOpen + k + length fenceClose) s)
    with (skipn (length fenceClose) (skipn k body)).
  - rewrite <- Hk, firstn_skipn. exact Ho.
  - unfold body. rewrite !skipn_skipn. f_equal. lia.
Qed.

(** [searchFrom] returns the leftmost match. *)
Lemma searchFrom_leftmost (s : jsstring) (i index e : nat) (capture : jsstring) :
  searchFrom s i = Some (index, capture, e) ->
  exists k n,
    index = (i + k)%nat /\ e = (index + n)%nat /\
    mermaidMatch (skipn k s) = Some (capture, n) /\
    (forall j, (j < k)%nat -> mermaidMatch (skipn j s) = None).
Proof.
  revert i. induction s as [|c s IH]; intros i H; rewrite searchFrom_unfold in H.
  - discriminate.
  - destruct (mermaidMatch (c :: s)) as [[cap n]|] eqn:Hm.
    + inversion H; subst. exists 0%nat, n.
      rewrite Nat.add_0_r. repeat split; auto. intros j Hj. lia.
    + apply IH in H. destruct H as (k & n & -> & -> & Hk & Hbefore).
      exists (S k), n. repeat split; [lia | exact Hk |].
      intros [|j] Hj; [exact Hm | apply Hbefore; lia].
Qed.

Lemma substring_skipn (s : jsstring) (a b : nat) :
  (a <= b <= length s)%nat -> substring s a b = firstn (b - a) (skipn a s).
Proof.
  intros H. unfold substring. rewrite !Nat.min_l, Nat.max_r by lia. reflexivity.
Qed.

Lemma no_fence_before_leftmost (s : jsstring) (k : nat) :
  (forall j, (j < k)%nat -> mermaidMatch (skipn j s) = None) ->
  ~ hasFence (firstn k s).
Proof.
  intros Hnone (b & body & a & Hf).
  assert (Hb : (length b < k)%nat).
  { apply (f_equal (@length char16)) in Hf.
    rewrite length_firstn, !length_app in Hf. simpl in Hf. lia. }
  assert (Hs : s = b ++ fenceOpen ++ body ++ fenceClose ++ (a ++ skipn k s)).
  { rewrite <- (firstn_skipn k s) at 1. rewrite Hf.
    rewrite <- !app_assoc. reflexivity. }
  specialize (Hnone (length b) Hb). rewrite Hs, skipn_app_exact in Hnone.
  exact (mermaidMatch_finds _ _ Hnone).
Qed.

Lemma exec_Some content lastIndex index capture e :
  mermaidRegex_exec content lastIndex = Some (index, capture, e) ->
  exists k n,
    index = (lastIndex + k)%nat /\ e = (index + n)%nat /\
    (index < length content)%nat /\
    mermaidMatch (skipn index content) = Some (capture, n) /\
    ~ hasFence (substring content lastIndex index).
Proof.
  unfold mermaidRegex_exec. intros H.
  destruct (Nat.ltb_spec (length content) lastIndex) as [|Hle]; [discriminate|].
  apply searchFrom_leftmost in H.
  destruct H as (k & n & -> & -> & Hk & Hbefore).
  rewrite skipn_skipn, Nat.add_comm in Hk.
  assert (Hlen : (lastIndex + k < length content)%nat).
  { destruct (Nat.lt_ge_cases (lastIndex + k) (length content)) as [|Hge];
      [assumption|].
    rewrite skipn_all2 in Hk by exact Hge. discriminate. }
  exists k, n. repeat split; auto.
  rewrite substring_skipn by lia.
  replace (lastIndex + k - lastIndex)%nat with k by lia.
  apply no_fence_before_leftmost, Hbefore.
Qed.

Lemma exec_None content lastIndex :
  mermaidRegex_exec content lastIndex = None ->
  (lastIndex <= length content)%nat ->
  ~ hasFence (skipn lastIndex content).
Proof.
  unfold mermaidRegex_exec. intros H Hle (b & body & a & Hf).
  destruct (Nat.ltb_spec (length content) lastIndex) as [|_]; [lia|].
  rewrite Hf in H.
  exact (searchFrom_finds b _ lastIndex (mermaidMatch_finds body a) H).
Qed.

Lemma sectionsLoop_wellFormed content lastIndex result :
  Forall wellFormedSection result ->
  Forall wellFormedSection (sectionsLoop content lastIndex result).
Proof.
  intros Hres. funelim (sectionsLoop content lastIndex result).
  - apply H. apply Forall_app. split.
    + destruct (Nat.ltb_spec lastIndex index) as [Hlt|_]; [|exact Hres].
      apply Forall_app. split; [exact Hres|]. constructor; [|constructor].
      destruct (exec_Some _ _ _ _ _ Hexec) as (k & n & Hi & _ & Hlen & _ & Hnf).
      unfold wellFormedSection. simpl. split; [|exact Hnf].
      rewrite substring_skipn by lia.
      intros E. apply (f_equal (@length char16)) in E.
      rewrite length_firstn, length_skipn in E. simpl in E. lia.
    + constructor; [|constructor]. unfold wellFormedSection. simpl.
      apply trim_idempotent.
  - destruct (Nat.ltb_spec lastIndex (length content)) as [Hlt|_]; [|exact Hres].
    apply Forall_app. split; [exact Hres|]. constructor; [|constructor].
    unfold wellFormedSection. simpl.
    rewrite substring_skipn by lia.
    rewrite firstn_all2 by (rewrite length_skipn; lia).
    split.
    + intros E. apply (f_equal (@length char16)) in E.
      rewrite length_skipn in E. simpl in E. lia.
    + apply exec_None; [assumption | lia].
Qed.

(** X13.  Every section the segmenter returns is a non-empty text section
    that holds no fence, or a diagram section whose source is trimmed; a
    section of type [table] is never produced. *)
Theorem sections_wellFormed (content : jsstring) :
  Forall wellFormedSection (sections content).
Proof. apply sectionsLoop_wellFormed. constructor. Qed.

Lemma endsWithDiagram_snoc (l : list PaperSection.t) (x : PaperSection.t) :
  PaperSection.type x = mermaid -> endsWithDiagram (l ++ [x]).
Proof.
  intros Hx. induction l as [|a l IH]; simpl; [exact Hx|].
  destruct (l ++ [x]) eqn:E; [destruct l; discriminate | exact IH].
Qed.

Lemma noTextPair_snoc (l : list PaperSection.t) (x : PaperSection.t) :
  noTextPair l ->
  PaperSection.type x = mermaid \/ endsWithDiagram l ->
  noTextPair (l ++ [x]).
Proof.
  induction l as [|a l IH]; intros Hl Hx; [exact I|].
  destruct l as [|b l].
  - simpl. split; [|exact I]. destruct Hx as [Hx|Ha]; [right|left]; assumption.
  - destruct Hl as [Hab Hl]. split; [exact Hab|].
    apply IH; [exact Hl|]. destruct Hx as [Hx|Hl']; [left | right]; assumption.
Qed.

Lemma sectionsLoop_noTextPair content lastIndex result :
  noTextPair result -> endsWithDiagram result ->
  noTextPair (sectionsLoop content lastIndex result).
Proof.
  intros Hres Hend. funelim (sectionsLoop content lastIndex result).
  - apply H.
    + apply noTextPair_snoc; [|left; reflexivity].
      destruct (lastIndex <? index)%nat; [|exact Hres].
      apply noTextPair_snoc; [exact Hres | right; exact Hend].
    + apply endsWithDiagram_snoc. reflexivity.
  - destruct (lastIndex <? length content)%nat; [|exact Hres].
    apply noTextPair_snoc; [exact Hres | right; exact Hend].
Qed.

(** X14.  The segmenter never returns two text sections side by side: of any
    two neighbouring sections at least one is a diagram. *)
Theorem sections_noTextPair (content : jsstring) :
  noTextPair (sections content).
Proof. apply sectionsLoop_noTextPair; exact I. Qed.

Lemma sectionsLoop_some content lastIndex result index capture e :
  mermaidRegex_exec content lastIndex = Some (index, capture, e) ->
  sectionsLoop content lastIndex result =
    sectionsLoop content e
      ((if (lastIndex <? index)%nat
        then result ++ [PaperSection.mk text (substring content lastIndex index)]
        else result)
       ++ [PaperSection.mk mermaid (trim capture)]).
Proof.
  intros Hsome. funelim (sectionsLoop content lastIndex result).
  - assert (E : Some (index0, capture0, lastIndex') = Some (index, capture, e))
      by congruence.
    inversion E; subst. reflexivity.
  - congruence.
Qed.

Lemma sectionsLoop_acc (n : nat) : forall content lastIndex result,
  (length content - lastIndex <= n)%nat ->
  sectionsLoop content lastIndex result =
    result ++ sectionsLoop content lastIndex [].
Proof.
  induction n as [|n IH]; intros content lastIndex result Hn;
    destruct (mermaidRegex_exec content lastIndex) as [[[index capture] e]|] eqn:E.
  - destruct (exec_Some _ _ _ _ _ E) as (k & m & -> & -> & Hlen & _). lia.
  - rewrite !sectionsLoop_no_match by exact E.
    destruct (lastIndex <? length content)%nat;
      [reflexivity | rewrite app_nil_r; reflexivity].
  - destruct (exec_Some _ _ _ _ _ E) as (k & m & Hi & He & Hlen & Hm & _).
    apply mermaidMatch_Some in Hm. destruct Hm as [_ Hm].
    rewrite (sectionsLoop_some _ _ result _ _ _ E).
    rewrite (sectionsLoop_some _ _ [] _ _ _ E).
    rewrite (IH content e (_ ++ _)) by (simpl in Hm; lia).
    rewrite (IH content e ((if (lastIndex <? index)%nat then _ else _) ++ _))
      by (simpl in Hm; lia).
    rewrite !app_assoc. f_equal. f_equal.
    destruct (lastIndex <? index)%nat; [reflexivity | rewrite app_nil_r; reflexivity].
  - rewrite !sectionsLoop_no_match by exact E.
    destruct (lastIndex <? length content)%nat;
      [reflexivity | rewrite app_nil_r; reflexivity].
Qed.

Lemma searchFrom_shift (s : jsstring) (i : nat) :
  searchFrom s i =
    match searchFrom s 0 with
    | Some (index, capture, e) => Some ((i + index)%nat, capture, (i + e)%nat)
    | None => None
    end.
Proof.
  revert i. induction s as [|c s IH]; intros i;
    rewrite (searchFrom_unfold _ i), (searchFrom_unfold _ 0).
  - destruct (mermaidMatch []) as [[cap n]|]; [|reflexivity].
    rewrite Nat.add_0_r. reflexivity.
  - destruct (mermaidMatch (c :: s)) as [[cap n]|].
    + rewrite Nat.add_0_r. reflexivity.
    + rewrite (IH (S i)), (IH 1%nat).
      destruct (searchFrom s 0) as [[[index capture] e]|]; [|reflexivity].
      do 2 f_equal; [f_equal|]; lia.
Qed.

Lemma exec_shift content lastIndex :
  (lastIndex <= length content)%nat ->
  mermaidRegex_exec content lastIndex =
    match mermaidRegex_exec (skipn lastIndex content) 0 with
    | Some (index, capture, e) =>
        Some ((lastIndex + index)%nat, capture, (lastIndex + e)%nat)
    | None => None
    end.
Proof.
  intros Hle. unfold mermaidRegex_exec.
  destruct (Nat.ltb_spec (length content) lastIndex) as [|_]; [lia|].
  simpl. apply searchFrom_shift.
Qed.

Lemma sectionsLoop_shift (n : nat) : forall content lastIndex,
  (length content - lastIndex <= n)%nat ->
  (lastIndex <= length content)%nat ->
  sectionsLoop content lastIndex [] = sectionsLoop (skipn lastIndex content) 0 [].
Proof.
  induction n as [|n IH]; intros content lastIndex Hn Hle;
    pose proof (exec_shift content lastIndex Hle) as Hshift;
    destruct (mermaidRegex_exec (skipn lastIndex content) 0)
      as [[[index capture] e]|] eqn:E0.
  - destruct (exec_Some _ _ _ _ _ Hshift) as (k & m & _ & _ & Hlen & _). lia.
  - rewrite !sectionsLoop_no_match by assumption.
    rewrite length_skipn.
    replace (length content - lastIndex)%nat with 0%nat by lia.
    replace (lastIndex <? length content)%nat with false
      by (symmetry; apply Nat.ltb_ge; lia).
    reflexivity.
  - destruct (exec_Some _ _ _ _ _ E0) as (k & m & Hi & He & Hlen & Hm & _).
    apply mermaidMatch_Some in Hm. destruct Hm as [Hs Hm].
    simpl in Hi. subst index e.
    rewrite length_skipn in Hlen.
    assert (Hfit : (lastIndex + (k + m) <= length content)%nat).
    { apply (f_equal (@length char16)) in Hs. rewrite !length_app in Hs.
      rewrite !length_skipn in Hs. rewrite Hm. lia. }
    rewrite (sectionsLoop_some _ _ [] _ _ _ Hshift).
    rewrite (sectionsLoop_some _ _ [] _ _ _ E0).
    rewrite (sectionsLoop_acc (length content) content) by lia.
    rewrite (sectionsLoop_acc (length content) (skipn lastIndex content))
      by (rewrite length_skipn; lia).
    rewrite (IH content (lastIndex + (k + m))%nat) by (simpl in Hm; lia).
    rewrite (IH (skipn lastIndex content) (k + m)%nat)
      by (rewrite length_skipn; simpl in Hm; lia).
    rewrite skipn_skipn. rewrite (Nat.add_comm (k + m) lastIndex).
    f_equal. f_equal.
    replace (lastIndex <? lastIndex + k)%nat with (0 <? k)%nat
      by (destruct (Nat.ltb_spec 0 k), (Nat.ltb_spec lastIndex (lastIndex + k));
          reflexivity || lia).
    destruct (0 <? k)%nat; [|reflexivity].
    simpl app. do 2 f_equal.
    rewrite !substring_skipn by (rewrite ?length_skipn; lia).
    rewrite skipn_O. f_equal. lia.
  - rewrite !sectionsLoop_no_match by assumption.
    rewrite length_skipn.
    destruct (Nat.ltb_spec lastIndex (length content)) as [Hlt|Hge],
             (Nat.ltb_spec 0 (length content - lastIndex)) as [Hlt'|Hge'];
      try lia; [|reflexivity].
    simpl app. do 2 f_equal.
    rewrite !substring_skipn by (rewrite ?length_skipn; lia).
    rewrite skipn_O. f_equal. lia.
Qed.

(** The loop, resumed at [lastIndex], adds the sections of the rest of the
    content to what it has. *)
Lemma sectionsLoop_rest content lastIndex result :
  (lastIndex <= length content)%nat ->
  sectionsLoop content lastIndex result =
    result ++ sections (skipn lastIndex content).
Proof.
  intros Hle. unfold sections.
  rewrite (sectionsLoop_acc (length content)) by lia.
  rewrite (sectionsLoop_shift (length content)) by lia. reflexivity.
Qed.

Lemma lazyStarThen_exact (mark : char16) (lit body post : jsstring) :
  ~ In mark body ->
  lazyStarThen (fun _ => true) (mark :: lit) (body ++ (mark :: lit) ++ post) =
    Some (length body).
Proof.
  intros Hfree. induction body as [|c body IH]; rewrite lazyStarThen_unfold.
  - rewrite app_nil_l, startsWith_prefix. reflexivity.
  - assert (E : (mark =? c)%N = false).
    { apply N.eqb_neq. intros ->. apply Hfree. left. reflexivity. }
    change (startsWith ((c :: body) ++ (mark :: lit) ++ post) (mark :: lit))
      with ((mark =? c)%N && startsWith (body ++ (mark :: lit) ++ post) lit).
    rewrite E. cbn [andb].
    change ((c :: body) ++ (mark :: lit) ++ post)
      with (c :: (body ++ (mark :: lit) ++ post)).
    cbv iota beta. rewrite IH; [reflexivity|].
    intros H. apply Hfree. right. exact H.
Qed.

Lemma mermaidMatch_other_head (c : char16) (s : jsstring) :
  c <> 96%N -> mermaidMatch (c :: s) = None.
Proof.
  intros Hc. unfold mermaidMatch.
  assert (E : (96 =? c)%N = false) by (apply N.eqb_neq; congruence).
  replace (startsWith (c :: s) fenceOpen) with false; [reflexivity|].
  unfold fenceOpen. cbn [u16 map list_ascii_of_string N_of_ascii startsWith].
  symmetry. apply andb_false_iff. left. exact E.
Qed.

Lemma searchFrom_after_prefix (pre rest capture : jsstring) (n i : nat) :
  ~ In 96%N pre ->
  mermaidMatch rest = Some (capture, n) ->
  searchFrom (pre ++ rest) i =
    Some ((i + length pre)%nat, capture, (i + length pre + n)%nat).
Proof.
  intros Hfree Hm. revert i.
  induction pre as [|c pre IH]; intros i; rewrite searchFrom_unfold.
  - rewrite app_nil_l, Hm. simpl. rewrite Nat.add_0_r. reflexivity.
  - change ((c :: pre) ++ rest) with (c :: (pre ++ rest)).
    rewrite mermaidMatch_other_head.
    + rewrite IH; [|intros H; apply Hfree; right; exact H].
      simpl. do 2 f_equal; [f_equal|]; lia.
    + intros ->. apply Hfree. left. reflexivity.
Qed.

(** X15.  Segmenting composes over the first fence: when neither the text in
    front of a fence nor the diagram source inside it holds a backtick, the
    sections of the whole are the text in front (if there is any), the
    diagram with its source trimmed, and then the sections of what follows
    the fence. *)
Theorem sections_first_fence (pre body post : jsstring) :
  ~ In 96%N pre -> ~ In 96%N body ->
  sections (pre ++ fenceOpen ++ body ++ fenceClose ++ post) =
    match pre with
    | [] => []
    | _ :: _ => [PaperSection.mk text pre]
    end
    ++ [PaperSection.mk mermaid (trim body)] ++ sections post.
Proof.
  intros Hpre Hbody.
  set (rest := fenceOpen ++ body ++ fenceClose ++ post).
  set (n := (length fenceOpen + length body + length fenceClose)%nat).
  assert (Hm : mermaidMatch rest = Some (body, n)).
  { unfold mermaidMatch, rest. rewrite startsWith_prefix, skipn_app_exact.
    pose proof (lazyStarThen_exact 96%N [96%N; 96%N] body post Hbody) as Hk.
    change (96%N :: [96%N; 96%N]) with fenceClose in Hk.
    rewrite Hk, firstn_app_exact. reflexivity. }
  assert (Hexec : mermaidRegex_exec (pre ++ rest) 0 =
                  Some (length pre, body, (length pre + n)%nat)).
  { unfold mermaidRegex_exec. simpl.
    rewrite (searchFrom_after_prefix pre rest body n 0 Hpre Hm). reflexivity. }
  unfold sections at 1.
  rewrite (sectionsLoop_some _ _ [] _ _ _ Hexec).
  assert (Hlen : length (pre ++ rest) = (length pre + n + length post)%nat).
  { unfold rest, n. rewrite !length_app. lia. }
  rewrite sectionsLoop_rest by lia.
  assert (Hpost : skipn (length pre + n) (pre ++ rest) = post).
  { unfold rest, n.
    replace (pre ++ fenceOpen ++ body ++ fenceClose ++ post)
      with ((pre ++ fenceOpen ++ body ++ fenceClose) ++ post)
      by (rewrite <- !app_assoc; reflexivity).
    replace (length pre + (length fenceOpen + length body + length fenceClose))%nat
      with (length (pre ++ fenceOpen ++ body ++ fenceClose))
      by (rewrite !length_app; lia).
    apply skipn_app_exact. }
  rewrite Hpost. rewrite <- app_assoc. f_equal.
  destruct pre as [|c pre]; [reflexivity|].
  change (0 <? length (c :: pre))%nat with true. cbv iota.
  rewrite app_nil_l. do 2 f_equal.
  apply (substring_middle [] (c :: pre) rest).
Qed.

Lemma sections_first_fence_witness :
  sections (u16 "Intro" ++ fenceOpen ++ u16 " graph TD " ++ fenceClose
            ++ u16 "Outro") =
    [PaperSection.mk text (u16 "Intro");
     PaperSection.mk mermaid (u16 "graph TD");
     PaperSection.mk text (u16 "Outro")].
Proof.
  assert (H1 : ~ In 96%N (u16 "Intro")).
  { simpl. intros H. repeat (destruct H as [H|H]; [discriminate H|]). exact H. }
  assert (H2 : ~ In 96%N (u16 " graph TD ")).
  { simpl. intros H. repeat (destruct H as [H|H]; [discriminate H|]). exact H. }
  exact (sections_first_fence (u16 "Intro") (u16 " graph TD ") (u16 "Outro") H1 H2).
Defined.

(** * Properties of [renderTextContent] and of the component *)

Lemma renderLine_ready (st : RenderState) (idx : nat) (line : jsstring) :
  bufferReady st ->
  exists st', renderLine st idx line = Some st' /\ bufferReady st'.
Proof.
  unfold bufferReady, renderLine. intros Hready.
  destruct (startsWith (trim line) [124%N]).
  - eexists. split; [reflexivity|]. simpl. intros _.
    destruct (tableBuffer st); discriminate.
  - destruct (inTable st) eqn:Hin.
    + destruct (tableBuffer st) as [|row rows] eqn:Hbuf;
        [elim (Hready eq_refl eq_refl)|].
      simpl. eexists. split; [reflexivity|]. simpl. discriminate.
    + eexists. split; [reflexivity|]. simpl. discriminate.
Qed.

Lemma forEachLine_ready (lines : list jsstring) (idx : nat) (st : RenderState) :
  bufferReady st ->
  exists st', forEachLine lines idx st = Some st' /\ bufferReady st'.
Proof.
  revert idx st. induction lines as [|line lines IH]; intros idx st Hready; simpl.
  - exists st. auto.
  - destruct (renderLine_ready st idx line Hready) as (st1 & -> & Hready1).
    apply IH, Hready1.
Qed.

Lemma renderTextContent_returns (text : jsstring) :
  exists children, renderTextContent text = Some children.
Proof.
  unfold renderTextContent.
  destruct (forEachLine_ready (splitOn 10%N text) 0
              {| elements := []; tableBuffer := []; inTable := false |})
    as (st & -> & Hready); [unfold bufferReady; simpl; discriminate|].
  destruct (inTable st && (0 <? length (tableBuffer st))%nat) eqn:E.
  - apply andb_true_iff in E. destruct E as [_ E]. apply Nat.ltb_lt in E.
    destruct (tableBuffer st) as [|row rows]; [simpl in E; lia|].
    simpl. eexists. reflexivity.
  - eexists. reflexivity.
Qed.

Lemma viewSections_returns (l : list PaperSection.t) :
  exists views, viewSections l = Some views /\ length views = length l.
Proof.
  induction l as [|s l (views & IH & Hlen)]; simpl.
  - exists []. auto.
  - rewrite IH.
    destruct (renderTextContent_returns (PaperSection.content s)) as [ch ->].
    destruct (PaperSection.type s); simpl; eexists; split;
      try reflexivity; simpl; congruence.
Qed.

(** X16.  Rendering never throws: [renderTable] is only ever given a buffer
    that holds a line, so [renderTextContent] returns elements for every text
    and the component returns one view for each section of every content. *)
Theorem PaperRenderer_returns (content : jsstring) :
  (exists children, renderTextContent content = Some children) /\
  (exists views, PaperRenderer content = Some views /\
                 length views = length (sections content)).
Proof.
  split; [apply renderTextContent_returns | apply viewSections_returns].
Qed.

Lemma splitOn_incl (sep c : char16) (s piece : jsstring) :
  In piece (splitOn sep s) -> In c piece -> In c s.
Proof.
  revert piece. induction s as [|x s IH]; simpl; intros piece Hp Hc.
  - destruct Hp as [<-|[]]. exact Hc.
  - destruct (N.eqb x sep).
    + destruct Hp as [<-|Hp]; [destruct Hc|]. right. eapply IH; eassumption.
    + destruct (splitOn sep s) as [|first pieces] eqn:E.
      * destruct Hp as [<-|[]]. destruct Hc as [<-|[]]. left. reflexivity.
      * destruct Hp as [<-|Hp].
        -- destruct Hc as [<-|Hc]; [left; reflexivity|].
           right. apply (IH first); [left; reflexivity | exact Hc].
        -- right. apply (IH piece); [right; exact Hp | exact Hc].
Qed.

Lemma trimStart_blank (s : jsstring) :
  Forall (fun c => isWhiteSpace c = true) s -> trimStart s = [].
Proof.
  induction 1 as [|c s Hc _ IH]; simpl; [reflexivity|]. rewrite Hc. exact IH.
Qed.

Lemma trim_blank (s : jsstring) :
  Forall (fun c => isWhiteSpace c = true) s -> trim s = [].
Proof. intros H. unfold trim. rewrite (trimStart_blank s H). reflexivity. Qed.

Lemma forEachLine_blank (lines : list jsstring) (idx : nat) (st : RenderState) :
  Forall (fun line => trim line = []) lines ->
  inTable st = false ->
  forEachLine lines idx st =
    Some {| elements := elements st; tableBuffer := tableBuffer st;
            inTable := false |}.
Proof.
  intros H. revert idx st. induction H as [|line lines Hl _ IH];
    intros idx st Hin; simpl.
  - destruct st; simpl in *. subst. reflexivity.
  - unfold renderLine. rewrite Hl, Hin. simpl. rewrite app_nil_r.
    rewrite IH by reflexivity. reflexivity.
Qed.

(** X17.  A text that holds nothing but white space and line breaks renders
    no element. *)
Theorem renderTextContent_blank (text : jsstring) :
  Forall (fun c => isWhiteSpace c = true) text ->
  renderTextContent text = Some [].
Proof.
  intros H. unfold renderTextContent.
  rewrite forEachLine_blank; [reflexivity | | reflexivity].
  apply Forall_forall. intros line Hline. apply trim_blank.
  apply Forall_forall. intros c Hc. rewrite Forall_forall in H.
  apply H. eapply splitOn_incl; eassumption.
Qed.

Lemma renderTextContent_blank_witness :
  Forall (fun c => isWhiteSpace c = true) [32%N; 10%N; 9%N; 10%N] /\
  renderTextContent [32%N; 10%N; 9%N; 10%N] = Some [].
Proof.
  assert (H : Forall (fun c => isWhiteSpace c = true) [32%N; 10%N; 9%N; 10%N])
    by (repeat constructor).
  split; [exact H|].
  exact (renderTextContent_blank _ H).
Defined.

Lemma forEachLine_table_lines (lines : list jsstring) (idx : nat) (st : RenderState) :
  Forall (fun line => startsWith (trim line) [124%N] = true) lines ->
  lines <> [] ->
  forEachLine lines idx st =
    Some {| elements := elements st; tableBuffer := tableBuffer st ++ lines;
            inTable := true |}.
Proof.
  intros H. revert idx st. induction H as [|line lines Hl Hrest IH];
    intros idx st Hne; [congruence|].
  simpl. unfold renderLine. rewrite Hl.
  destruct lines as [|line' lines'].
  - reflexivity.
  - rewrite IH by discriminate. simpl. rewrite <- app_assoc. reflexivity.
Qed.

Lemma splitOn_nonempty (sep : char16) (s : jsstring) : splitOn sep s <> [].
Proof.
  destruct s as [|c s]; simpl; [discriminate|].
  destruct (N.eqb c sep); [discriminate|].
  destruct (splitOn sep s); discriminate.
Qed.

(** X18.  A text whose every line starts, after trimming, with a pipe renders
    exactly one element: the table of all its lines, flushed at the end of
    the text under the key [table-end]. *)
Theorem renderTextContent_table_only (text : jsstring) :
  Forall (fun line => startsWith (trim line) [124%N] = true) (splitOn 10%N text) ->
  exists cells,
    renderTable (splitOn 10%N text) = Some cells /\
    renderTextContent text = Some [Element.table None cells].
Proof.
  intros H. unfold renderTextContent.
  rewrite (forEachLine_table_lines _ _ _ H (splitOn_nonempty _ _)). simpl.
  destruct (splitOn 10%N text) as [|row rows] eqn:E;
    [elim (splitOn_nonempty _ _ E)|].
  simpl. eexists. split; reflexivity.
Qed.

Lemma renderTextContent_table_only_witness :
  exists cells,
    renderTable (splitOn 10%N (u16 "| a | b |" ++ [10%N] ++ u16 " |---|---|"
                               ++ [10%N] ++ u16 "| 1 | 2 |")) = Some cells /\
    renderTextContent (u16 "| a | b |" ++ [10%N] ++ u16 " |---|---|"
                       ++ [10%N] ++ u16 "| 1 | 2 |") =
      Some [Element.table None cells].
Proof.
  apply renderTextContent_table_only.
  repeat constructor.
Defined.

Lemma startsWith_head (s : jsstring) (c : char16) :
  startsWith s [c] = true -> In c s.
Proof.
  destruct s as [|x s]; simpl; [discriminate|].
  rewrite andb_true_iff, N.eqb_eq. intros [-> _]. left. reflexivity.
Qed.

Lemma lineElement_no_table (idx : nat) (trimmed : jsstring) :
  forallb (fun e => negb (isTableElement e)) (lineElement idx trimmed) = true.
Proof.
  unfold lineElement. destruct trimmed as [|c s]; [reflexivity|].
  repeat match goal with
         | |- context [if ?b then _ else _] => destruct b
         end; reflexivity.
Qed.

Lemma forEachLine_no_pipe (lines : list jsstring) (idx : nat) (st : RenderState) :
  Forall (fun line => ~ In 124%N line) lines ->
  inTable st = false ->
  forallb (fun e => negb (isTableElement e)) (elements st) = true ->
  exists st',
    forEachLine lines idx st = Some st' /\ inTable st' = false /\
    forallb (fun e => negb (isTableElement e)) (elements st') = true.
Proof.
  intros H. revert idx st. induction H as [|line lines Hl _ IH];
    intros idx st Hin Hel; simpl.
  - exists st. auto.
  - unfold renderLine.
    destruct (startsWith (trim line) [124%N]) eqn:E.
    + apply startsWith_head, trim_incl in E. contradiction.
    + rewrite Hin. apply IH; simpl; [reflexivity|].
      rewrite forallb_app, Hel, lineElement_no_table. reflexivity.
Qed.

(** X19.  A text without any pipe never renders a table: every element is a
    heading, a list item or a paragraph. *)
Theorem renderTextContent_no_pipe (text : jsstring) :
  ~ In 124%N text ->
  exists children,
    renderTextContent text = Some children /\
    forallb (fun e => negb (isTableElement e)) children = true.
Proof.
  intros H. unfold renderTextContent.
  destruct (forEachLine_no_pipe (splitOn 10%N text) 0
              {| elements := []; tableBuffer := []; inTable := false |})
    as (st & -> & Hin & Hel); try reflexivity.
  - apply Forall_forall. intros line Hline Hc. apply H.
    eapply splitOn_incl; eassumption.
  - rewrite Hin. simpl. exists (elements st). auto.
Qed.

Lemma renderTextContent_no_pipe_witness :
  ~ In 124%N (u16 "# Title") /\
  exists children,
    renderTextContent (u16 "# Title") = Some children /\
    forallb (fun e => negb (isTableElement e)) children = true.
Proof.
  assert (H : ~ In 124%N (u16 "# Title")).
  { simpl. intros H. repeat (destruct H as [H|H]; [discriminate H|]). exact H. }
  split; [exact H|].
  exact (renderTextContent_no_pipe (u16 "# Title") H).
Defined.

(** * Properties of the [App] handlers *)

Lemma savePaperVersion_cases ls paperId content versionId timestamp :
  savePaperVersion ls paperId content versionId timestamp = (ls, None) \/
  exists before paper after newVersion,
    getPapers ls = before ++ paper :: after /\
    PaperVersion.content newVersion = content /\
    savePaperVersion ls paperId content versionId timestamp =
      (Stored (Paper.mk (Paper.id paper) (Paper.topic paper) (Paper.overview paper)
                 (Paper.createdAt paper) timestamp
                 (Paper.versions paper ++ [newVersion]) :: before ++ after),
       Some (Paper.mk (Paper.id paper) (Paper.topic paper) (Paper.overview paper)
               (Paper.createdAt paper) timestamp
               (Paper.versions paper ++ [newVersion]))).
Proof.
  destruct (locate (getPapers ls) paperId) as [Habs | (b & q & a & Hl & Hid & Hnb)].
  - left. apply savePaperVersion_absent, Habs.
  - right. exists b, q, a,
      (PaperVersion.mk versionId (Z.of_nat (length (Paper.versions q)) + 1)
         content timestamp).
    split; [exact Hl|]. split; [reflexivity|].
    apply (savePaperVersion_found _ _ _ _ _ _ _ _ Hl Hid Hnb).
Qed.

Lemma nth_error_last_snoc {A} (l : list A) (x : A) :
  nth_error (l ++ [x]) (length (l ++ [x]) - 1) = Some x.
Proof.
  rewrite length_app. simpl.
  replace (length l + 1 - 1)%nat with (length l) by lia.
  rewrite nth_error_app2, Nat.sub_diag by lia. reflexivity.
Qed.

(** X20.  The list on screen follows the store: once the component has
    mounted, after any sequence of events that does not throw, the papers it
    lists are the papers [getPapers] reads from the store. *)
Theorem App_list_in_sync (s s' : App.State * LocalStorage) (events : list App.Event) :
  App.handleAll s (App.Mount :: events) = Some s' -> inSync s'.
Proof.
  assert (Hstep : forall s ev s', App.handle s ev = Some s' -> inSync s -> inSync s').
  { clear. unfold inSync. intros [st ls] ev [st' ls'] H Hs. simpl in Hs.
    destruct ev; simpl in H.
    - inversion H; subst. reflexivity.
    - inversion H; subst. exact Hs.
    - inversion H; subst. exact Hs.
    - unfold App.handleGenerate in H.
      destruct (_ || _); [inversion H; subst; exact Hs|].
      destruct outcome as [result|]; [|inversion H; subst; exact Hs].
      simpl in H. inversion H; subst. reflexivity.
    - destruct (nth_error (App.papers st) index) as [paper|];
        [|inversion H; subst; exact Hs].
      unfold App.loadPaper in H.
      destruct (nth_error (Paper.versions paper) _); [|discriminate].
      inversion H; subst. exact Hs.
    - inversion H; subst. unfold App.onVersionChange.
      destruct (App.currentPaper st); [|exact Hs].
      destruct (find _ _); exact Hs.
    - inversion H; subst. exact Hs.
    - inversion H; subst. exact Hs.
    - unfold App.handleSaveVersion in H.
      destruct (App.currentPaper st) as [paper|]; [|inversion H; subst; exact Hs].
      destruct (match App.currentVersion st with Some _ => _ | None => _ end);
        [inversion H; subst; exact Hs|].
      destruct (savePaperVersion_cases ls (Paper.id paper) (App.editContent st)
                  versionId timestamp) as [E|(b & q & a & nv & _ & _ & E)];
        rewrite E in H; inversion H; subst; [exact Hs | reflexivity].
    - unfold App.handleDeletePaper in H.
      destruct confirmed; inversion H; subst; [reflexivity | exact Hs].
    - inversion H; subst. exact Hs.
    - inversion H; subst. exact Hs. }
  assert (Hall : forall events s s', App.handleAll s events = Some s' ->
                                    inSync s -> inSync s').
  { clear - Hstep. induction events as [|ev events IH]; intros s s' H Hs; simpl in H.
    - inversion H; subst. exact Hs.
    - destruct (App.handle s ev) as [s1|] eqn:E; [|discriminate].
      eapply IH; [exact H | eapply Hstep; eassumption]. }
  destruct s as [st ls]. simpl. intros H.
  eapply Hall; [exact H|]. reflexivity.
Qed.

Lemma App_list_in_sync_witness :
  exists s', App.handleAll (App.initial, demoStore) (App.Mount :: demoEvents) = Some s' /\
             inSync s'.
Proof.
  eexists. split; [vm_compute; reflexivity|].
  eapply (App_list_in_sync (App.initial, demoStore) _ demoEvents).
  vm_compute. reflexivity.
Defined.

Lemma handle_versionOfPaper (s s' : App.State * LocalStorage) (ev : App.Event) :
  App.handle s ev = Some s' -> versionOfPaper (fst s) -> versionOfPaper (fst s').
Proof.
  unfold versionOfPaper. destruct s as [st ls], s' as [st' ls']. simpl.
  intros H Hs. destruct ev; simpl in H.
  - inversion H; subst. exact Hs.
  - inversion H; subst. exact Hs.
  - inversion H; subst. exact Hs.
  - unfold App.handleGenerate in H.
    destruct (_ || _); [inversion H; subst; exact Hs|].
    destruct outcome as [result|]; [|inversion H; subst; exact Hs].
    simpl in H. inversion H; subst. simpl.
    intros paper v Hp Hv. inversion Hp; inversion Hv; subst. simpl. auto.
  - destruct (nth_error (App.papers st) index) as [paper|];
      [|inversion H; subst; exact Hs].
    unfold App.loadPaper in H.
    destruct (nth_error (Paper.versions paper) _) as [ver|] eqn:E; [|discriminate].
    inversion H; subst. simpl.
    intros paper' v Hp Hv. inversion Hp; inversion Hv; subst.
    eapply nth_error_In, E.
  - inversion H; subst. unfold App.onVersionChange.
    destruct (App.currentPaper st) as [paper|] eqn:Ep.
    2: { intros paper' v Hp Hv. try rewrite Ep in Hp. discriminate. }
    destruct (find _ _) as [ver|] eqn:E.
    + simpl. intros paper' v Hp Hv. try rewrite Ep in Hp.
      inversion Hp; inversion Hv; subst. apply find_some in E. apply E.
    + intros paper' v Hp Hv.
      first [exact (Hs paper' v Hp Hv)
            | rewrite Ep in Hp; exact (Hs paper' v Hp Hv)].
  - inversion H; subst. exact Hs.
  - inversion H; subst. exact Hs.
  - unfold App.handleSaveVersion in H.
    destruct (App.currentPaper st) as [paper|] eqn:Ep.
    2: { inversion H; subst. intros paper' v Hp Hv.
         try rewrite Ep in Hp. discriminate. }
    destruct (match App.currentVersion st with Some _ => _ | None => _ end).
    { inversion H; subst. simpl. intros paper' v Hp Hv.
      first [exact (Hs paper' v Hp Hv)
            | rewrite Ep in Hp; exact (Hs paper' v Hp Hv)]. }
    destruct (savePaperVersion_cases ls (Paper.id paper) (App.editContent st)
                versionId timestamp) as [E|(b & q & a & nv & _ & _ & E)];
      rewrite E in H; inversion H; subst.
    + intros paper' v Hp Hv.
      first [exact (Hs paper' v Hp Hv)
            | rewrite Ep in Hp; exact (Hs paper' v Hp Hv)].
    + simpl. intros paper' v Hp Hv. inversion Hp; subst. simpl.
      eapply nth_error_In, Hv.
  - unfold App.handleDeletePaper in H.
    destruct confirmed; inversion H; subst; exact Hs.
  - inversion H; subst. exact Hs.
  - inversion H; subst. exact Hs.
Qed.

(** X21.  The version the editor shows belongs to the paper it shows: from
    the first render on, after any sequence of events that does not throw,
    the current version is one of the versions of the current paper. *)
Theorem App_version_of_current_paper (ls : LocalStorage) (events : list App.Event)
    (s' : App.State * LocalStorage) :
  App.handleAll (App.initial, ls) events = Some s' -> versionOfPaper (fst s').
Proof.
  assert (Hall : forall events s s', App.handleAll s events = Some s' ->
                   versionOfPaper (fst s) -> versionOfPaper (fst s')).
  { clear. induction events as [|ev events IH]; intros s s' H Hs; simpl in H.
    - inversion H; subst. exact Hs.
    - destruct (App.handle s ev) as [s1|] eqn:E; [|discriminate].
      eapply IH; [exact H | eapply handle_versionOfPaper; eassumption]. }
  intros H. eapply Hall; [exact H|].
  unfold versionOfPaper. simpl. discriminate.
Qed.

Lemma App_version_of_current_paper_witness :
  exists s', App.handleAll (App.initial, demoStore) (App.Mount :: demoEvents) = Some s' /\
             versionOfPaper (fst s').
Proof.
  eexists. split; [vm_compute; reflexivity|].
  eapply (App_version_of_current_paper demoStore (App.Mount :: demoEvents)).
  vm_compute. reflexivity.
Defined.

Lemma hasVersion_latest (paper : Paper.t) :
  hasVersion paper ->
  exists v, nth_error (Paper.versions paper) (length (Paper.versions paper) - 1) = Some v.
Proof.
  unfold hasVersion. intros H.
  destruct (nth_error (Paper.versions paper) (length (Paper.versions paper) - 1))
    as [v|] eqn:E; [eauto|].
  apply nth_error_None in E. lia.
Qed.

Lemma handle_allHaveVersions (s : App.State * LocalStorage) (ev : App.Event) :
  allHaveVersions s ->
  exists s', App.handle s ev = Some s' /\ allHaveVersions s'.
Proof.
  unfold allHaveVersions. destruct s as [st ls]. simpl. intros [Hp Hl].
  assert (Hstep : forall o, Forall hasVersion (getPapers (step ls o))).
  { intros o. apply step_keeps; unfold hasVersion; simpl; intros.
    - lia.
    - rewrite length_app. simpl. lia.
    - exact Hl. }
  destruct ev; simpl; try (eexists; split; [reflexivity|]; simpl; auto; fail).
  - unfold App.handleGenerate.
    destruct (_ || _); [eexists; split; [reflexivity|]; simpl; auto|].
    destruct outcome as [result|]; [|eexists; split; [reflexivity|]; simpl; auto].
    simpl. eexists. split; [reflexivity|]. simpl.
    pose proof (Hstep (Create (App.topic st) (App.overview st) result paperId
                         versionId timestamp)) as H. simpl in H. auto.
  - destruct (nth_error (App.papers st) index) as [paper|] eqn:E;
      [|eexists; split; [reflexivity|]; simpl; auto].
    apply nth_error_In in E. rewrite Forall_forall in Hp.
    destruct (hasVersion_latest paper (Hp paper E)) as [v Hv].
    unfold App.loadPaper. rewrite Hv.
    eexists. split; [reflexivity|]. simpl. split; [|exact Hl].
    apply Forall_forall. exact Hp.
  - eexists. split; [reflexivity|]. simpl. split; [|exact Hl].
    unfold App.onVersionChange.
    destruct (App.currentPaper st); [|exact Hp].
    destruct (find _ _); exact Hp.
  - eexists. split; [reflexivity|]. simpl.
    unfold App.handleSaveVersion.
    destruct (App.currentPaper st) as [paper|]; [|simpl; auto].
    destruct (match App.currentVersion st with Some _ => _ | None => _ end);
      [simpl; auto|].
    pose proof (Hstep (AppendVersion (Paper.id paper) (App.editContent st)
                         versionId timestamp)) as H. simpl in H.
    destruct (savePaperVersion ls (Paper.id paper) (App.editContent st)
                versionId timestamp) as [ls' [updated|]]; simpl in *; auto.
  - eexists. split; [reflexivity|]. simpl.
    unfold App.handleDeletePaper. destruct confirmed; simpl; [|auto].
    pose proof (Hstep (Delete id)) as H. simpl in H. auto.
Qed.

(** X22.  Opening a paper never throws when every stored paper holds a
    version: from the first render on such a store, every sequence of events
    runs to its end, and every listed and stored paper still holds a
    version. *)
Theorem App_never_throws (ls : LocalStorage) (events : list App.Event) :
  Forall hasVersion (getPapers ls) ->
  exists s', App.handleAll (App.initial, ls) events = Some s' /\ allHaveVersions s'.
Proof.
  assert (Hall : forall events s, allHaveVersions s ->
            exists s', App.handleAll s events = Some s' /\ allHaveVersions s').
  { clear. induction events as [|ev events IH]; intros s Hs; simpl.
    - exists s. auto.
    - destruct (handle_allHaveVersions s ev Hs) as (s1 & -> & Hs1).
      apply IH, Hs1. }
  intros H. apply Hall. split; [constructor | exact H].
Qed.

Lemma App_never_throws_witness :
  Forall hasVersion (getPapers demoStore) /\
  exists s', App.handleAll (App.initial, demoStore) (App.Mount :: demoEvents) = Some s' /\
             allHaveVersions s'.
Proof.
  assert (H : Forall hasVersion (getPapers demoStore)).
  { unfold hasVersion. simpl. repeat constructor; simpl; lia. }
  split; [exact H|].
  exact (App_never_throws demoStore (App.Mount :: demoEvents) H).
Defined.

(** X23.  Saving twice stores once: after [handleSaveVersion], a second
    [handleSaveVersion] with the same edit buffer leaves the store as the
    first one left it, whatever the first one did. *)
Theorem handleSaveVersion_twice (st : App.State) (ls : LocalStorage)
    (versionId versionId' : jsstring) (timestamp timestamp' : Z) :
  let first := App.handleSaveVersion st ls versionId timestamp in
  snd (App.handleSaveVersion (fst first) (snd first) versionId' timestamp') =
    snd first.
Proof.
  unfold App.handleSaveVersion.
  destruct (App.currentPaper st) as [paper|] eqn:Ep; simpl; [|rewrite Ep; reflexivity].
  destruct (match App.currentVersion st with Some _ => _ | None => _ end) eqn:Eu.
  - simpl. rewrite ?Ep, ?Eu. reflexivity.
  - destruct (savePaperVersion_cases ls (Paper.id paper) (App.editContent st)
                versionId timestamp) as [E|(b & q & a & nv & _ & Hc & E)];
      rewrite E; simpl.
    + rewrite ?Ep, ?Eu.
      destruct (savePaperVersion_cases ls (Paper.id paper) (App.editContent st)
                  versionId' timestamp') as [E'|(b' & q' & a' & nv' & _ & _ & E')].
      * rewrite E'. reflexivity.
      * exfalso.
        assert (H1 : snd (savePaperVersion ls (Paper.id paper) (App.editContent st)
                            versionId timestamp) = None) by (rewrite E; reflexivity).
        assert (H2 : snd (savePaperVersion ls (Paper.id paper) (App.editContent st)
                            versionId' timestamp') <> None)
          by (rewrite E'; discriminate).
        apply H2. clear - H1. unfold savePaperVersion in *.
        destruct (findIndex _ _) as [i|]; [|reflexivity].
        destruct (nth_error _ i); [discriminate | reflexivity].
    + rewrite nth_error_last_snoc, Hc, str_eqb_refl. reflexivity.
Qed.

(** X24.  [handleGenerate] writes only what it shows.  With a blank topic or
    overview, or when the service rejects, the store, the listed papers and
    the current paper stay as they were.  Otherwise exactly one paper is put
    in front of the store, holding the generated text as its only version,
    and the editor opens on that paper and version in view mode, with the
    list refreshed from the store. *)
Theorem handleGenerate_outcomes (st : App.State) (ls : LocalStorage)
    (outcome : option jsstring) (paperId versionId : jsstring) (timestamp : Z) :
  let r := App.handleGenerate st ls outcome paperId versionId timestamp in
  ((trim (App.topic st) = [] \/ trim (App.overview st) = [] \/ outcome = None) /\
   snd r = ls /\
   App.papers (fst r) = App.papers st /\
   App.currentPaper (fst r) = App.currentPaper st /\
   App.currentVersion (fst r) = App.currentVersion st) \/
  (exists result paper v,
     trim (App.topic st) <> [] /\ trim (App.overview st) <> [] /\
     outcome = Some result /\
     getPapers (snd r) = paper :: getPapers ls /\
     Paper.id paper = paperId /\
     Paper.topic paper = App.topic st /\
     Paper.overview paper = App.overview st /\
     Paper.versions paper = [v] /\
     PaperVersion.content v = result /\
     App.papers (fst r) = getPapers (snd r) /\
     App.currentPaper (fst r) = Some paper /\
     App.currentVersion (fst r) = Some v /\
     App.editContent (fst r) = result /\
     App.isEditing (fst r) = false /\
     App.view (fst r) = App.EDITOR /\
     App.loadingState (fst r) = App.IDLE).
Proof.
  unfold App.handleGenerate.
  destruct (str_eqb (trim (App.topic st)) []) eqn:Et.
  { left. apply str_eqb_eq in Et. simpl. auto 10. }
  destruct (str_eqb (trim (App.overview st)) []) eqn:Eo.
  { left. apply str_eqb_eq in Eo. simpl. auto 10. }
  apply str_eqb_neq in Et. apply str_eqb_neq in Eo.
  destruct outcome as [result|]; simpl.
  - right. do 3 eexists. repeat split; auto.
  - left. auto 10.
Qed.

(** X25.  An edit to a paper that was deleted in the meantime is not stored:
    after the current paper is deleted, [handleSaveVersion] with a changed
    edit buffer finds no paper, writes nothing and leaves the component as it
    is, still in edit mode if it was. *)
Theorem handleSaveVersion_after_delete (st : App.State) (ls : LocalStorage)
    (paper : Paper.t) (versionId : jsstring) (timestamp : Z) :
  App.currentPaper st = Some paper ->
  (forall v, App.currentVersion st = Some v ->
             App.editContent st <> PaperVersion.content v) ->
  let deleted := App.handleDeletePaper st ls (Paper.id paper) true in
  App.handleSaveVersion (fst deleted) (snd deleted) versionId timestamp = deleted.
Proof.
  intros Hp Hchanged. simpl. unfold App.handleSaveVersion. simpl. rewrite Hp.
  assert (Hu : match App.currentVersion st with
               | Some v => str_eqb (App.editContent st) (PaperVersion.content v)
               | None => false
               end = false).
  { destruct (App.currentVersion st) as [v|]; [|reflexivity].
    apply str_eqb_neq, Hchanged. reflexivity. }
  rewrite Hu.
  assert (Habs : savePaperVersion (deletePaper ls (Paper.id paper)) (Paper.id paper)
                   (App.editContent st) versionId timestamp =
                 (deletePaper ls (Paper.id paper), None)).
  { apply savePaperVersion_absent. apply Forall_forall. intros q Hq.
    simpl in Hq. apply filter_In in Hq. destruct Hq as [_ Hq].
    apply negb_true_iff, str_eqb_neq in Hq. exact Hq. }
  rewrite Habs. reflexivity.
Qed.

Lemma getPaperById_after_write_witness :
  exists ls' updated,
    savePaperVersion demoStore (u16 "b") (u16 "edited") (u16 "v3") 40 =
      (ls', Some updated) /\
    getPaperById ls' (u16 "b") = Some updated.
Proof.
  do 2 eexists. split; [vm_compute; reflexivity|].
  apply (proj2 (getPaperById_after_write demoStore (u16 "t") (u16 "o")
                  (u16 "edited") (u16 "b") (u16 "v3") 40)).
  vm_compute. reflexivity.
Defined.

Lemma savePaperVersion_updates_looked_up_witness :
  getPaperById demoStore (u16 "b") = Some (demoPaper "b" 20 [1%Z; 2%Z]) /\
  exists updated newVersion,
    snd (savePaperVersion demoStore (u16 "b") (u16 "edited") (u16 "v3") 40) =
      Some updated /\
    Paper.versions updated =
      Paper.versions (demoPaper "b" 20 [1%Z; 2%Z]) ++ [newVersion] /\
    PaperVersion.content newVersion = u16 "edited" /\
    Paper.id updated = Paper.id (demoPaper "b" 20 [1%Z; 2%Z]) /\
    Paper.topic updated = Paper.topic (demoPaper "b" 20 [1%Z; 2%Z]) /\
    Paper.overview updated = Paper.overview (demoPaper "b" 20 [1%Z; 2%Z]) /\
    Paper.createdAt updated = Paper.createdAt (demoPaper "b" 20 [1%Z; 2%Z]).
Proof.
  assert (H : getPaperById demoStore (u16 "b") = Some (demoPaper "b" 20 [1%Z; 2%Z]))
    by reflexivity.
  split; [exact H|].
  exact (proj2 (savePaperVersion_updates_looked_up demoStore (u16 "b")
                  (u16 "edited") (u16 "v3") 40) _ H).
Defined.

Lemma handleSaveVersion_after_delete_witness :
  App.currentPaper demoEditing = Some (demoPaper "b" 20 [1%Z; 2%Z]) /\
  App.handleSaveVersion
    (fst (App.handleDeletePaper demoEditing demoStore (u16 "b") true))
    (snd (App.handleDeletePaper demoEditing demoStore (u16 "b") true))
    (u16 "v3") 60 =
  App.handleDeletePaper demoEditing demoStore (u16 "b") true.
Proof.
  assert (H1 : App.currentPaper demoEditing = Some (demoPaper "b" 20 [1%Z; 2%Z]))
    by reflexivity.
  assert (H2 : forall v, App.currentVersion demoEditing = Some v ->
                         App.editContent demoEditing <> PaperVersion.content v).
  { intros v Hv. vm_compute in Hv. inversion Hv; subst. vm_compute. discriminate. }
  split; [exact H1|].
  exact (handleSaveVersion_after_delete demoEditing demoStore
           (demoPaper "b" 20 [1%Z; 2%Z]) (u16 "v3") 60 H1 H2).
Defined.

(** * The inline formatter on unbalanced asterisks *)

















